(** * Bias Nomad: the TF-IDF job recommender and its API route

    A shallow embedding of
      - [app/services/tfidf_recommender.py]  (text composition and ranking),
      - [app/routes/ml_routes.py]            (the [/ml/recommend] endpoint),
      - [app/utils/schemas.py]               (the recommendation schemas),
      - [app/database/models.py]             (the [User] and [Job] rows),
    together with a model of the scikit-learn calls the ranker makes.

    Conventions of the embedding:
      - Python [str] is [string]; the model covers ASCII text (code points
        below 128), characters above that are carried along unchanged and are
        neither whitespace nor word characters;
      - Python [int] is [Z]; an attribute that may be [None] is an [option];
      - numpy [float64] scores are exact real numbers ([R]) wherever only
        their order and their number matter; what rounding does to their
        values is followed on machine floats in [Float64];
      - a raised exception is the [inl] branch of the outcome, and the calls a
        run makes to the ranker and to scikit-learn are recorded in a trace. *)

From Stdlib Require Import List String Ascii Bool Arith ZArith Lia.
From Stdlib Require Import DecimalString.
From Stdlib Require PrimFloat.
From Stdlib Require Import Permutation Sorted.
From Stdlib Require Import Reals Lra.
Import ListNotations.

Local Open Scope string_scope.

(* ================================================================== *)
(** * Python strings *)
(* ================================================================== *)

Module PyStr.

(** [str.isspace] on one ASCII character: TAB, LF, VT, FF, CR, the four
    separators FS GS RS US, and the space. *)
Definition isspace (c : ascii) : bool :=
  let n := nat_of_ascii c in
  (((9 <=? n) && (n <=? 13)) || ((28 <=? n) && (n <=? 31)) || (n =? 32))%nat.

(** [s.lstrip()] *)
Fixpoint lstrip (s : string) : string :=
  match s with
  | EmptyString => EmptyString
  | String c s' => if isspace c then lstrip s' else s
  end.

(** [s.rstrip()]: a trailing character goes when it is whitespace and all
    that follows it has gone. *)
Fixpoint rstrip (s : string) : string :=
  match s with
  | EmptyString => EmptyString
  | String c s' =>
      match rstrip s' with
      | EmptyString => if isspace c then EmptyString else String c EmptyString
      | t => String c t
      end
  end.

(** [s.strip()] *)
Definition strip (s : string) : string := rstrip (lstrip s).

(** [s.lower()] on ASCII letters. *)
Definition lower_char (c : ascii) : ascii :=
  let n := nat_of_ascii c in
  if ((65 <=? n) && (n <=? 90))%nat then ascii_of_nat (n + 32) else c.

Fixpoint lower (s : string) : string :=
  match s with
  | EmptyString => EmptyString
  | String c s' => String (lower_char c) (lower s')
  end.

(** [x or ""] for an attribute that may be [None]: [None] and the empty
    string are both falsy. *)
Definition or_empty (x : option string) : string :=
  match x with
  | Some s => s
  | None => ""
  end.

(** [" ".join(ws)] *)
Fixpoint join_space (ws : list string) : string :=
  match ws with
  | [] => ""
  | [w] => w
  | w :: rest => w ++ " " ++ join_space rest
  end.

End PyStr.

(* ================================================================== *)
(** * Database rows ([app/database/models.py]) *)
(* ================================================================== *)

(** Salaries are SQL floats; only their sign is ever inspected, so a finite
    value is kept as an integer number of currency units. *)
Record User : Type := mkUser {
  u_id : Z;
  u_email : string;
  full_name : option string;
  has_disability : bool;
  disability_type : option string;
  accessibility_needs : option string;
  u_created_at : option Z;
  u_updated_at : option Z
}.

Record Job : Type := mkJob {
  j_id : Z;
  title : option string;
  company : option string;
  description : option string;
  skills : option string;
  location : option string;
  is_remote : bool;
  is_inclusive : bool;
  accessibility_features : option string;
  salary_min : option Z;
  salary_max : option Z;
  application_url : option string;
  j_created_at : option Z;
  j_updated_at : option Z
}.

(* ================================================================== *)
(** * Text composition ([tfidf_recommender.py], lines 18-63) *)
(* ================================================================== *)

(** The f-string ["{a} {b} {c}"]. *)
Definition fstring3 (a b c : string) : string := a ++ " " ++ b ++ " " ++ c.

Definition combine_job_text (job : Job) : string :=
  let title := PyStr.or_empty (title job) in
  let skills := PyStr.or_empty (skills job) in
  let description := PyStr.or_empty (description job) in
  PyStr.strip (fstring3 title skills description).

Definition combine_user_profile_text (user : User) : string :=
  let full_name := PyStr.or_empty (full_name user) in
  let disability_type := PyStr.or_empty (disability_type user) in
  let accessibility_needs := PyStr.or_empty (accessibility_needs user) in
  PyStr.strip (fstring3 full_name disability_type accessibility_needs).

(** The composition as the specification words it: the three fields, absent
    ones as empty strings, joined by single spaces, and nothing more. *)
Definition spec_compose (a b c : option string) : string :=
  PyStr.or_empty a ++ " " ++ PyStr.or_empty b ++ " " ++ PyStr.or_empty c.

(* ================================================================== *)
(** * Outcomes, exceptions and the call trace *)
(* ================================================================== *)

Inductive exn : Type :=
| ValueError (msg : string)
| HTTPException (status_code : Z) (detail : string)
| IndexError (msg : string)
| ValidationError (fields : list string).

(** The calls whose presence or absence the properties speak about. *)
Inductive event : Type :=
| Call_compute_tfidf_recommendations (n_jobs : nat) (limit : Z)
| Call_fit_transform (raw_documents : list string)
| Call_cosine_similarity.

(** A run: the calls made so far, and either the exception raised or the
    value returned. *)
Definition M (A : Type) : Type := (list event * (exn + A))%type.

Definition ret {A} (a : A) : M A := ([], inr a).
Definition raise {A} (e : exn) : M A := ([], inl e).
Definition emit (ev : event) : M unit := ([ev], inr tt).

Definition bind {A B} (m : M A) (k : A -> M B) : M B :=
  match m with
  | (t, inl e) => (t, inl e)
  | (t, inr a) => let (t', r) := k a in ((t ++ t')%list, r)
  end.

Notation "x <- m ;; k" := (bind m (fun x => k))
  (at level 61, m at next level, right associativity).
Notation "m ;;; k" := (bind m (fun _ => k))
  (at level 61, right associativity).

Definition trace {A} (m : M A) : list event := fst m.
Definition outcome {A} (m : M A) : exn + A := snd m.

(** [returns m a]: the run ends normally with value [a]. *)
Definition returns {A} (m : M A) (a : A) : Prop := outcome m = inr a.
(** [raises m e]: the run ends with exception [e]. *)
Definition raises {A} (m : M A) (e : exn) : Prop := outcome m = inl e.

(* ================================================================== *)
(** * Python lists: [sort(key=..., reverse=True)] and [xs[:k]] *)
(* ================================================================== *)

Section PySort.
Context {A K : Type}.
Variable key : A -> K.
(** Python's [<] on keys. *)
Variable ltb : K -> K -> bool.

(** [list.sort(key=key, reverse=True)] is a stable sort into descending key
    order: elements whose keys compare equal keep their input order.
    Insertion from the right gives exactly that list: the new element, which
    precedes all of [l] in the input, goes in front of the first element
    whose key is not greater than its own. *)
Fixpoint insert_desc (x : A) (l : list A) : list A :=
  match l with
  | [] => [x]
  | y :: l' => if ltb (key x) (key y) then y :: insert_desc x l' else x :: l
  end.

Fixpoint sort_desc (l : list A) : list A :=
  match l with
  | [] => []
  | x :: l' => insert_desc x (sort_desc l')
  end.
End PySort.

(** [xs[:k]] for any integer [k]: a negative [k] counts from the end. *)
Definition slice_to {A} (k : Z) (xs : list A) : list A :=
  if (k <? 0)%Z
  then firstn (Z.to_nat (Z.of_nat (List.length xs) + k)) xs
  else firstn (Z.to_nat k) xs.


(* ================================================================== *)
(** * scikit-learn: the text analyser of [TfidfVectorizer] *)
(* ================================================================== *)

(** A model of the library calls the ranker makes, following scikit-learn's
    [feature_extraction/text.py] and [metrics/pairwise.py]. *)
Module Sklearn.

(** [\w] of the token pattern, on ASCII: digits, letters and the underscore. *)
Definition is_word_char (c : ascii) : bool :=
  let n := nat_of_ascii c in
  (((48 <=? n) && (n <=? 57)) || ((65 <=? n) && (n <=? 90))
   || (n =? 95) || ((97 <=? n) && (n <=? 122)))%nat.

(** The maximal runs of word characters of [s], in order; [cur] is the run
    being read.  Empty runs are produced too and dropped by [tokenize]. *)
Fixpoint word_runs (cur : string) (s : string) : list string :=
  match s with
  | EmptyString => [cur]
  | String c s' =>
      if is_word_char c then word_runs (cur ++ String c EmptyString) s'
      else cur :: word_runs EmptyString s'
  end.

(** [re.compile(r"(?u)\b\w\w+\b").findall]: the runs of at least two word
    characters. *)
Definition tokenize (s : string) : list string :=
  filter (fun w => (2 <=? String.length w)%nat) (word_runs EmptyString s).

(** [w not in stop_words] *)
Definition is_stop_word (stop_words : list string) (w : string) : bool :=
  existsb (String.eqb w) stop_words.

(** Python's [range(a, b)]. *)
Definition range (a b : nat) : list nat := seq a (b - a).

(** The [n]-grams of a token list, joined by single spaces. *)
Definition ngrams_of_size (n : nat) (tokens : list string) : list string :=
  map (fun i => PyStr.join_space (firstn n (skipn i tokens)))
      (range 0 (List.length tokens - n + 1)).

(** [_word_ngrams] after the stop-word filter: for [max_n = 1] the tokens
    themselves; otherwise the unigrams when [min_n = 1], followed by the
    n-grams of each size up to [max_n]. *)
Definition word_ngrams (min_n max_n : nat) (tokens : list string) : list string :=
  if (max_n =? 1)%nat then tokens
  else
    let n_original_tokens := List.length tokens in
    let '(head, min_n') :=
      if (min_n =? 1)%nat then (tokens, (min_n + 1)%nat) else ([], min_n) in
    (head ++ flat_map (fun n => ngrams_of_size n tokens)
                      (range min_n' (Nat.min (max_n + 1) (n_original_tokens + 1))))%list.

(** The constructor arguments of [TfidfVectorizer] that the ranker sets;
    every other argument keeps its default ([max_df=1.0], [norm='l2'],
    [use_idf=True], [smooth_idf=True], [sublinear_tf=False]). *)
Record TfidfVectorizer : Type := mkTfidfVectorizer {
  max_features : option nat;
  ngram_range : nat * nat;
  min_df : nat;
  stop_words : list string;
  lowercase : bool;
  strip_accents_unicode : bool
}.

(** [strip_accents='unicode']: NFKD-normalise and drop combining marks.  ASCII
    text has no accents, so within the model this is the identity. *)
Definition strip_accents (s : string) : string := s.

(** [build_analyzer()]: preprocess (lower-case, strip accents), tokenise,
    drop stop words, form the n-grams. *)
Definition analyze (v : TfidfVectorizer) (doc : string) : list string :=
  let doc := if lowercase v then PyStr.lower doc else doc in
  let doc := if strip_accents_unicode v then strip_accents doc else doc in
  let tokens := tokenize doc in
  let tokens := filter (fun w => negb (is_stop_word (stop_words v) w)) tokens in
  word_ngrams (fst (ngram_range v)) (snd (ngram_range v)) tokens.

(** ** [CountVectorizer.fit_transform]: vocabulary and term counts *)

(** The distinct features in the order they are first met, which is the order
    in which [_count_vocab] numbers them. *)
Definition first_seen (features : list string) : list string :=
  rev (nodup string_dec (rev features)).

(** One column of the term-document matrix: a term and its count in every
    document. *)
Record column : Type := mkColumn {
  term : string;
  counts : list nat
}.

Definition count_column (analyzed : list (list string)) (t : string) : column :=
  mkColumn t (map (fun features => count_occ string_dec features t) analyzed).

(** [X.sum(axis=0)]: occurrences of the term in the whole corpus. *)
Definition tf (c : column) : nat := list_sum (counts c).

(** [_document_frequency]: number of documents the term occurs in. *)
Definition df (c : column) : nat :=
  List.length (filter (fun k => (0 <? k)%nat) (counts c)).

(** [_sort_features]: columns in increasing order of their terms. *)
Definition sort_features (cols : list column) : list column :=
  sort_desc term (fun a b => String.ltb b a) cols.

Definition indexed {A} (l : list A) : list (nat * A) :=
  combine (seq 0 (List.length l)) l.

(** [_limit_features]: keep the terms whose document frequency lies in
    [low, high]; when more than [limit] remain, keep the [limit] of them with
    the highest corpus count (an [argsort] of the negated counts, taken here
    to leave equal counts in index order); the columns kept stay in place. *)
Definition limit_features (high low : nat) (limit : option nat)
    (cols : list column) : exn + list column :=
  let masked := filter (fun c => (df c <=? high)%nat && (low <=? df c)%nat) cols in
  let kept :=
    match limit with
    | Some l =>
        if (l <? List.length masked)%nat then
          let mask_inds :=
            map fst (firstn l (sort_desc (fun ic => tf (snd ic)) Nat.ltb
                                         (indexed masked))) in
          map snd (filter (fun ic => existsb (Nat.eqb (fst ic)) mask_inds)
                          (indexed masked))
        else masked
    | None => masked
    end in
  match kept with
  | [] => inl (ValueError
            "After pruning, no terms remain. Try a lower min_df or a higher max_df.")
  | _ => inr kept
  end.

Definition empty_vocabulary : string :=
  "empty vocabulary; perhaps the documents only contain stop words".

(** The vocabulary [_count_vocab] builds from the raw documents. *)
Definition vocabulary_of (v : TfidfVectorizer) (raw_documents : list string)
    : list string :=
  first_seen (List.concat (map (analyze v) raw_documents)).

Definition count_fit_transform (v : TfidfVectorizer)
    (raw_documents : list string) : exn + list column :=
  let analyzed := map (analyze v) raw_documents in
  match vocabulary_of v raw_documents with
  | [] => inl (ValueError empty_vocabulary)
  | vocabulary =>
      let cols := map (count_column analyzed) vocabulary in
      let n_doc := List.length raw_documents in
      let max_doc_count := n_doc in
      let min_doc_count := min_df v in
      if (max_doc_count <? min_doc_count)%nat then
        inl (ValueError "max_df corresponds to < documents than min_df")
      else
        let cols := match max_features v with
                    | Some _ => sort_features cols
                    | None => cols
                    end in
        match limit_features max_doc_count min_doc_count (max_features v) cols with
        | inl e => inl e
        | inr cols =>
            inr (match max_features v with
                 | Some _ => cols
                 | None => sort_features cols
                 end)
        end
  end.

(** ** [TfidfTransformer]: weights over exact reals *)

Local Open Scope R_scope.

(** A sparse matrix as the ranker sees it: its number of columns and its rows,
    each row a dense list of reals. *)
Record csr_matrix : Type := mkMatrix {
  n_cols : nat;
  rows : list (list R)
}.

(** [smooth_idf=True]: [idf = ln((1 + n) / (1 + df)) + 1]. *)
Definition idf (n_samples : nat) (c : column) : R :=
  ln ((1 + INR n_samples) / (1 + INR (df c))) + 1.

(** Row [i] of [X * idf_diag]. *)
Definition tfidf_row (n_samples : nat) (cols : list column) (i : nat) : list R :=
  map (fun c => INR (nth i (counts c) 0%nat) * idf n_samples c) cols.

Definition dot (x y : list R) : R :=
  fold_right (fun p acc => fst p * snd p + acc) 0 (combine x y).

(** [normalize(X, norm='l2')] on one row: a row whose squares sum to zero is
    left as it is, any other is divided by its Euclidean norm. *)
Definition normalize_row (x : list R) : list R :=
  if Req_dec_T (dot x x) 0 then x else map (fun a => a / sqrt (dot x x)) x.

(** [TfidfVectorizer.fit_transform]. *)
Definition fit_transform (v : TfidfVectorizer) (raw_documents : list string)
    : exn + csr_matrix :=
  match count_fit_transform v raw_documents with
  | inl e => inl e
  | inr cols =>
      let n_samples := List.length raw_documents in
      inr (mkMatrix (List.length cols)
             (map (fun i => normalize_row (tfidf_row n_samples cols i))
                  (range 0 n_samples)))
  end.

(** [X[a:b]] and [X[a:]] on rows. *)
Definition row_slice (a b : nat) (X : csr_matrix) : csr_matrix :=
  mkMatrix (n_cols X) (firstn (b - a) (skipn a (rows X))).
Definition row_slice_from (a : nat) (X : csr_matrix) : csr_matrix :=
  mkMatrix (n_cols X) (skipn a (rows X)).

(** [cosine_similarity(X, Y)]: after [check_pairwise_arrays] (at least one
    row and one column each, equal numbers of columns), the matrix of dot
    products of the L2-normalised rows of [X] with those of [Y]. *)
Definition cosine_similarity (X Y : csr_matrix) : exn + list (list R) :=
  if ((List.length (rows X) =? 0) || (List.length (rows Y) =? 0))%nat then
    inl (ValueError "Found array with 0 sample(s) while a minimum of 1 is required.")
  else if ((n_cols X =? 0) || (n_cols Y =? 0))%nat then
    inl (ValueError "Found array with 0 feature(s) while a minimum of 1 is required.")
  else if negb (n_cols X =? n_cols Y)%nat then
    inl (ValueError "Incompatible dimension for X and Y matrices")
  else
    let X_normalized := map normalize_row (rows X) in
    let Y_normalized := map normalize_row (rows Y) in
    inr (map (fun x => map (fun y => dot x y) Y_normalized) X_normalized).

Local Close Scope R_scope.

(** [stop_words='english']: scikit-learn's built-in English list. *)
Definition ENGLISH_STOP_WORDS : list string :=
  ["a"; "about"; "above"; "across"; "after"; "afterwards"; "again"; "against";
   "all"; "almost"; "alone"; "along"; "already"; "also"; "although"; "always";
   "am"; "among"; "amongst"; "amoungst"; "amount"; "an"; "and"; "another";
   "any"; "anyhow"; "anyone"; "anything"; "anyway"; "anywhere"; "are";
   "around"; "as"; "at"; "back"; "be"; "became"; "because"; "become";
   "becomes"; "becoming"; "been"; "before"; "beforehand"; "behind"; "being";
   "below"; "beside"; "besides"; "between"; "beyond"; "bill"; "both";
   "bottom"; "but"; "by"; "call"; "can"; "cannot"; "cant"; "co"; "con";
   "could"; "couldnt"; "cry"; "de"; "describe"; "detail"; "do"; "done";
   "down"; "due"; "during"; "each"; "eg"; "eight"; "either"; "eleven"; "else";
   "elsewhere"; "empty"; "enough"; "etc"; "even"; "ever"; "every"; "everyone";
   "everything"; "everywhere"; "except"; "few"; "fifteen"; "fifty"; "fill";
   "find"; "fire"; "first"; "five"; "for"; "former"; "formerly"; "forty";
   "found"; "four"; "from"; "front"; "full"; "further"; "get"; "give"; "go";
   "had"; "has"; "hasnt"; "have"; "he"; "hence"; "her"; "here"; "hereafter";
   "hereby"; "herein"; "hereupon"; "hers"; "herself"; "him"; "himself"; "his";
   "how"; "however"; "hundred"; "i"; "ie"; "if"; "in"; "inc"; "indeed";
   "interest"; "into"; "is"; "it"; "its"; "itself"; "keep"; "last"; "latter";
   "latterly"; "least"; "less"; "ltd"; "made"; "many"; "may"; "me";
   "meanwhile"; "might"; "mill"; "mine"; "more"; "moreover"; "most"; "mostly";
   "move"; "much"; "must"; "my"; "myself"; "name"; "namely"; "neither";
   "never"; "nevertheless"; "next"; "nine"; "no"; "nobody"; "none"; "noone";
   "nor"; "not"; "nothing"; "now"; "nowhere"; "of"; "off"; "often"; "on";
   "once"; "one"; "only"; "onto"; "or"; "other"; "others"; "otherwise"; "our";
   "ours"; "ourselves"; "out"; "over"; "own"; "part"; "per"; "perhaps";
   "please"; "put"; "rather"; "re"; "same"; "see"; "seem"; "seemed";
   "seeming"; "seems"; "serious"; "several"; "she"; "should"; "show"; "side";
   "since"; "sincere"; "six"; "sixty"; "so"; "some"; "somehow"; "someone";
   "something"; "sometime"; "sometimes"; "somewhere"; "still"; "such";
   "system"; "take"; "ten"; "than"; "that"; "the"; "their"; "them";
   "themselves"; "then"; "thence"; "there"; "thereafter"; "thereby";
   "therefore"; "therein"; "thereupon"; "these"; "they"; "thick"; "thin";
   "third"; "this"; "those"; "though"; "three"; "through"; "throughout";
   "thru"; "thus"; "to"; "together"; "too"; "top"; "toward"; "towards";
   "twelve"; "twenty"; "two"; "un"; "under"; "until"; "up"; "upon"; "us";
   "very"; "via"; "was"; "we"; "well"; "were"; "what"; "whatever"; "when";
   "whence"; "whenever"; "where"; "whereafter"; "whereas"; "whereby";
   "wherein"; "whereupon"; "wherever"; "whether"; "which"; "while"; "whither";
   "who"; "whoever"; "whole"; "whom"; "whose"; "why"; "will"; "with";
   "within"; "without"; "would"; "yet"; "you"; "your"; "yours"; "yourself";
   "yourselves"].

End Sklearn.

(* ================================================================== *)
(** * scikit-learn: normalisation and cosine in binary64 *)
(* ================================================================== *)

(** The values of the scores are computed by the library in IEEE binary64,
    where sums, square roots and quotients are rounded.  This module follows
    the same steps as [Sklearn.normalize_row] and [Sklearn.dot] on machine
    floats, from the weighted rows of the term-document matrix onwards (the
    logarithm of the inverse document frequency has no machine counterpart
    here, so the weights are its input).  Sums run over the entries in column
    order, starting from 0, as the library's loops over a sparse row do. *)
Module Float64.
Import PrimFloat.
Local Open Scope float_scope.

Definition dot (x y : list float) : float :=
  fold_left (fun acc p => acc + fst p * snd p) (combine x y) 0.

(** [normalize(X, norm='l2')] on one row: a row whose norm is 0 is left as
    it is, any other is divided by its norm. *)
Definition normalize_row (x : list float) : list float :=
  let norm := sqrt (dot x x) in
  if norm =? 0 then x else map (fun a => a / norm) x.

(** The score of a job row against the user row: [fit_transform] normalises
    both weighted rows, [cosine_similarity] normalises them again and takes
    the dot product. *)
Definition score (user_row job_row : list float) : float :=
  dot (normalize_row (normalize_row user_row))
      (normalize_row (normalize_row job_row)).

(** The check [ge=0.0, le=1.0] of [JobRecommendation.match_score]. *)
Definition match_score_ok (s : float) : bool := (0 <=? s) && (s <=? 1).

(** A weighted row of [n] terms of weight 1: each term once in the document,
    with inverse document frequency [ln(1) + 1]. *)
Definition unit_weights (n : nat) : list float := repeat 1 n.

(** The binary64 number after 1, printed 1.0000000000000002. *)
Definition next_after_one : float := 0x1.0000000000001p+0.

End Float64.

(* ================================================================== *)
(** * The ranker ([tfidf_recommender.py], lines 66-133) *)
(* ================================================================== *)

(** The vectoriser as the ranker configures it. *)
Definition vectorizer : Sklearn.TfidfVectorizer :=
  Sklearn.mkTfidfVectorizer (Some 5000%nat) (1%nat, 2%nat) 1%nat
    Sklearn.ENGLISH_STOP_WORDS true true.

(** An outcome of a library call, as a run that makes no recorded call. *)
Definition lift {A} (r : exn + A) : M A := ([], r).

Definition call_fit_transform (v : Sklearn.TfidfVectorizer)
    (raw_documents : list string) : M Sklearn.csr_matrix :=
  emit (Call_fit_transform raw_documents) ;;;
  lift (Sklearn.fit_transform v raw_documents).

Definition call_cosine_similarity (X Y : Sklearn.csr_matrix) : M (list (list R)) :=
  emit Call_cosine_similarity ;;;
  lift (Sklearn.cosine_similarity X Y).

(** [a[0]] on the rows of an array. *)
Definition index0 {A} (a : list A) : M A :=
  match a with
  | [] => raise (IndexError "index 0 is out of bounds for axis 0 with size 0")
  | x :: _ => ret x
  end.

(** Python's [<] on scores. *)
Definition Rltb (x y : R) : bool := if Rlt_dec x y then true else false.

Definition compute_tfidf_recommendations (user : User) (jobs : list Job)
    (limit : Z) : M (list (Job * R)) :=
  emit (Call_compute_tfidf_recommendations (List.length jobs) limit) ;;;
  match jobs with
  | [] => ret []
  | _ :: _ =>
      let user_text := combine_user_profile_text user in
      let job_texts := map combine_job_text jobs in
      let all_texts := user_text :: job_texts in
      tfidf_matrix <- call_fit_transform vectorizer all_texts ;;
      let user_vector := Sklearn.row_slice 0 1 tfidf_matrix in
      let job_vectors := Sklearn.row_slice_from 1 tfidf_matrix in
      similarity <- call_cosine_similarity user_vector job_vectors ;;
      similarity_scores <- index0 similarity ;;
      let job_scores := combine jobs similarity_scores in
      let job_scores := sort_desc snd Rltb job_scores in
      ret (slice_to limit job_scores)
  end.

(* ================================================================== *)
(** * The recommendation schemas ([app/utils/schemas.py]) *)
(* ================================================================== *)

Module Schemas.

(** [RecommendationRequest]: [user_id] with [gt=0], [limit] with default 10,
    [ge=1] and [le=50]. *)
Record RecommendationRequest : Type := mkRecommendationRequest {
  user_id : Z;
  limit : Z
}.

(** [JobResponse]: the fields of [JobBase] and the row's metadata. *)
Record JobResponse : Type := mkJobResponse {
  title : string;
  company : string;
  description : string;
  skills : option string;
  location : string;
  is_remote : bool;
  is_inclusive : bool;
  accessibility_features : option string;
  salary_min : option Z;
  salary_max : option Z;
  application_url : option string;
  id : Z;
  created_at : Z;
  updated_at : option Z
}.

Record JobRecommendation : Type := mkJobRecommendation {
  job : JobResponse;
  match_score : R
}.

Record RecommendationResponse : Type := mkRecommendationResponse {
  response_user_id : Z;
  recommendations : list JobRecommendation;
  total_found : Z
}.

End Schemas.

(** A JSON request body for [POST /ml/recommend], with integer values; a key
    that is absent is [None]. *)
Record RequestBody : Type := mkRequestBody {
  body_user_id : option Z;
  body_limit : option Z
}.

(** The field names that fail a check, in declaration order. *)
Definition failing (checks : list (string * bool)) : list string :=
  map fst (filter (fun c => negb (snd c)) checks).

Definition validated {A} (checks : list (string * bool)) (a : A) : exn + A :=
  match failing checks with
  | [] => inr a
  | fields => inl (ValidationError fields)
  end.

(** Building a [RecommendationRequest] from the keys of a body. *)
Definition RecommendationRequest_validate (body : RequestBody)
    : exn + Schemas.RecommendationRequest :=
  let limit := match body_limit body with Some l => l | None => 10%Z end in
  match body_user_id body with
  | None =>
      inl (ValidationError
             ("user_id" :: failing [("limit", (1 <=? limit)%Z && (limit <=? 50)%Z)]))
  | Some user_id =>
      validated [("user_id", (0 <? user_id)%Z);
                 ("limit", (1 <=? limit)%Z && (limit <=? 50)%Z)]
                (Schemas.mkRecommendationRequest user_id limit)
  end.

(** A required [str] attribute with [min_length] and [max_length]. *)
Definition str_ok (min_length : nat) (max_length : option nat)
    (x : option string) : bool :=
  match x with
  | None => false
  | Some s =>
      ((min_length <=? String.length s)
       && match max_length with
          | Some m => String.length s <=? m
          | None => true
          end)%nat
  end.

(** An [Optional] attribute: [None] passes, a value is checked. *)
Definition optional_ok {A} (check : A -> bool) (x : option A) : bool :=
  match x with
  | None => true
  | Some a => check a
  end.

Definition is_some {A} (x : option A) : bool :=
  match x with Some _ => true | None => false end.

(** [JobResponse.model_validate(job)] with [from_attributes]. *)
Definition JobResponse_model_validate (job : Job) : exn + Schemas.JobResponse :=
  validated
    [("title", str_ok 1 (Some 255%nat) (title job));
     ("company", str_ok 1 (Some 255%nat) (company job));
     ("description", str_ok 1 None (description job));
     ("location", str_ok 1 (Some 255%nat) (location job));
     ("salary_min", optional_ok (fun x => (0 <=? x)%Z) (salary_min job));
     ("salary_max", optional_ok (fun x => (0 <=? x)%Z) (salary_max job));
     ("application_url",
        optional_ok (fun s => (String.length s <=? 500)%nat) (application_url job));
     ("created_at", is_some (j_created_at job))]
    (Schemas.mkJobResponse
       (PyStr.or_empty (title job)) (PyStr.or_empty (company job))
       (PyStr.or_empty (description job)) (skills job)
       (PyStr.or_empty (location job)) (is_remote job) (is_inclusive job)
       (accessibility_features job) (salary_min job) (salary_max job)
       (application_url job) (j_id job)
       (match j_created_at job with Some t => t | None => 0%Z end)
       (j_updated_at job)).

(** [JobRecommendation(job=..., match_score=...)] with [ge=0.0], [le=1.0]. *)
Definition JobRecommendation_validate (job : Schemas.JobResponse) (score : R)
    : exn + Schemas.JobRecommendation :=
  if Rle_dec 0 score then
    if Rle_dec score 1 then inr (Schemas.mkJobRecommendation job score)
    else inl (ValidationError ["match_score"])
  else inl (ValidationError ["match_score"]).

(* ================================================================== *)
(** * The endpoint ([app/routes/ml_routes.py]) *)
(* ================================================================== *)

(** The two tables a database session gives access to. *)
Record Session : Type := mkSession {
  users : list User;
  jobs : list Job
}.

(** A list comprehension whose element expression may raise. *)
Fixpoint mapM {A B} (f : A -> M B) (l : list A) : M (list B) :=
  match l with
  | [] => ret []
  | x :: l' => y <- f x ;; ys <- mapM f l' ;; ret (y :: ys)
  end.

Definition recommend_jobs (request : Schemas.RecommendationRequest)
    (db : Session) : M Schemas.RecommendationResponse :=
  let user := find (fun u => (u_id u =? Schemas.user_id request)%Z) (users db) in
  match user with
  | None => raise (HTTPException 404 "User not found")
  | Some user =>
      let all_jobs := jobs db in
      match all_jobs with
      | [] =>
          ret (Schemas.mkRecommendationResponse (Schemas.user_id request) [] 0)
      | _ :: _ =>
          job_scores <- compute_tfidf_recommendations user all_jobs
                          (Schemas.limit request) ;;
          recommendations <-
            mapM (fun js =>
                    job <- lift (JobResponse_model_validate (fst js)) ;;
                    lift (JobRecommendation_validate job (snd js)))
                 job_scores ;;
          ret (Schemas.mkRecommendationResponse (Schemas.user_id request)
                 recommendations (Z.of_nat (List.length recommendations)))
      end
  end.

(** [POST /ml/recommend]: the framework validates the body into a
    [RecommendationRequest] and only then calls the route function. *)
Definition post_ml_recommend (body : RequestBody) (db : Session)
    : M Schemas.RecommendationResponse :=
  request <- lift (RecommendationRequest_validate body) ;;
  recommend_jobs request db.

(* ================================================================== *)
(** * Queries, and the user and job routes
      ([app/routes/users.py], [app/routes/jobs.py]) *)
(* ================================================================== *)

(** Python's [str(n)] for an integer. *)
Definition str_of_int (n : Z) : string := NilZero.string_of_int (Z.to_int n).

(** [query.offset(skip).limit(limit).all()] over the rows of a table, taken
    in table order.  SQLite reads a negative offset as 0 and a negative limit
    as no limit. *)
Definition paginate {A} (skip limit : Z) (table : list A) : list A :=
  let rest := skipn (Z.to_nat skip) table in
  if (limit <? 0)%Z then rest else firstn (Z.to_nat limit) rest.

(** The primary key SQLite gives a new row: 1 in an empty table, otherwise
    one more than the largest key in use. *)
Definition next_id (ids : list Z) : Z :=
  match ids with
  | [] => 1%Z
  | i :: rest => (1 + fold_right Z.max i rest)%Z
  end.

Module UserSchemas.

(** [UserCreate], once validated. *)
Record UserCreate : Type := mkUserCreate {
  email : string;
  full_name : string;
  has_disability : bool;
  disability_type : option string;
  accessibility_needs : option string
}.

End UserSchemas.

(** A route that may change the database: the session it leaves, and what
    it raised or returned. *)
Definition Route (A : Type) : Type := (Session * (exn + A))%type.

(** [GET /users/] *)
Definition get_users (skip limit : Z) (db : Session) : list User :=
  paginate skip limit (users db).

(** [GET /users/{user_id}] *)
Definition get_user (user_id : Z) (db : Session) : exn + User :=
  let user := find (fun u => (u_id u =? user_id)%Z) (users db) in
  match user with
  | None =>
      inl (HTTPException 404
             ("User with ID " ++ str_of_int user_id ++ " not found"))
  | Some user => inr user
  end.

(** [POST /users/]; [now] is the clock reading the server default of
    [created_at] takes. *)
Definition create_user (user : UserSchemas.UserCreate) (now : Z) (db : Session)
    : Route User :=
  let existing_user :=
    find (fun u => String.eqb (u_email u) (UserSchemas.email user)) (users db) in
  match existing_user with
  | Some _ =>
      (db, inl (HTTPException 400
                  ("User with email " ++ UserSchemas.email user
                   ++ " already exists")))
  | None =>
      let db_user :=
        mkUser (next_id (map u_id (users db)))
               (UserSchemas.email user)
               (Some (UserSchemas.full_name user))
               (UserSchemas.has_disability user)
               (UserSchemas.disability_type user)
               (UserSchemas.accessibility_needs user)
               (Some now) None in
      (mkSession (users db ++ [db_user])%list (jobs db), inr db_user)
  end.

(** SQL [LIKE] as SQLite evaluates it on ASCII text: [%] matches any run of
    characters, [_] any one character, every other character itself without
    regard to case. *)
Fixpoint like (pattern : string) : string -> bool :=
  match pattern with
  | EmptyString =>
      fun text => match text with EmptyString => true | String _ _ => false end
  | String c pattern' =>
      if Ascii.eqb c "%" then
        fix any_run (text : string) : bool :=
          like pattern' text
          || match text with
             | EmptyString => false
             | String _ text' => any_run text'
             end
      else
        fun text =>
          match text with
          | EmptyString => false
          | String d text' =>
              (Ascii.eqb c "_"
               || Ascii.eqb (PyStr.lower_char c) (PyStr.lower_char d))
              && like pattern' text'
          end
  end.

(** [column.ilike(pattern)] on a column that may be [NULL]: a [NULL] never
    matches. *)
Definition ilike (column : option string) (pattern : string) : bool :=
  match column with
  | Some text => like pattern text
  | None => false
  end.

(** The three optional filters of [get_jobs], applied in the order the route
    applies them. *)
Definition filter_is_remote (is_remote_q : option bool) (query : list Job)
    : list Job :=
  match is_remote_q with
  | Some b => filter (fun j => Bool.eqb (is_remote j) b) query
  | None => query
  end.

Definition filter_is_inclusive (is_inclusive_q : option bool) (query : list Job)
    : list Job :=
  match is_inclusive_q with
  | Some b => filter (fun j => Bool.eqb (is_inclusive j) b) query
  | None => query
  end.

Definition filter_location (location_q : option string) (query : list Job)
    : list Job :=
  match location_q with
  | Some (String c rest) =>
      filter (fun j => ilike (location j) ("%" ++ String c rest ++ "%")) query
  | Some EmptyString | None => query
  end.

(** [GET /jobs/] with its query parameters already validated. *)
Definition get_jobs (skip limit : Z) (is_remote_q is_inclusive_q : option bool)
    (location_q : option string) (db : Session) : list Job :=
  let query := jobs db in
  let query := filter_is_remote is_remote_q query in
  let query := filter_is_inclusive is_inclusive_q query in
  let query := filter_location location_q query in
  paginate skip limit query.



(** A text contains [needle] without regard to the case of ASCII letters. *)
Definition contains_nocase (needle text : string) : Prop :=
  exists before after,
    PyStr.lower text = before ++ PyStr.lower needle ++ after.

(** No SQL wildcard among the characters of a string. *)
Fixpoint no_wildcard (s : string) : bool :=
  match s with
  | EmptyString => true
  | String c s' =>
      negb (Ascii.eqb c "%") && negb (Ascii.eqb c "_") && no_wildcard s'
  end.

(** ** Reading aids for the properties below *)

(** The first and the last character of a string. *)
Definition first_char (s : string) : option ascii :=
  match s with
  | EmptyString => None
  | String c _ => Some c
  end.

Fixpoint last_char (s : string) : option ascii :=
  match s with
  | EmptyString => None
  | String c EmptyString => Some c
  | String _ s' => last_char s'
  end.

Definition is_space_at (x : option ascii) : bool :=
  match x with
  | Some c => PyStr.isspace c
  | None => false
  end.

(** A string that neither begins nor ends with whitespace. *)
Definition trimmed (s : string) : bool :=
  negb (is_space_at (first_char s)) && negb (is_space_at (last_char s)).

(** The documents the ranker hands to the vectoriser: the user text first,
    then the job texts in input order. *)
Definition all_texts (user : User) (jobs : list Job) : list string :=
  combine_user_profile_text user :: map combine_job_text jobs.

(** The rows of the TF-IDF matrix of a corpus, none when fitting fails. *)
Definition tfidf_rows (raw_documents : list string) : list (list R) :=
  match Sklearn.fit_transform vectorizer raw_documents with
  | inr X => Sklearn.rows X
  | inl _ => []
  end.

(** The cosine of two rows, as [cosine_similarity] computes each entry. *)
Definition cosine (x y : list R) : R :=
  Sklearn.dot (Sklearn.normalize_row x) (Sklearn.normalize_row y).

(** The score of every job against the user, in input order. *)
Definition similarity_scores (user : User) (jobs : list Job) : list R :=
  match tfidf_rows (all_texts user jobs) with
  | [] => []
  | user_row :: job_rows => map (cosine user_row) job_rows
  end.

(** The scored jobs before sorting, and the ranking the ranker returns. *)
Definition job_scores (user : User) (jobs : list Job) : list (Job * R) :=
  combine jobs (similarity_scores user jobs).

Definition ranking (user : User) (jobs : list Job) (limit : Z) : list (Job * R) :=
  slice_to limit (sort_desc snd Rltb (job_scores user jobs)).

(** The vocabulary of the corpus of a user and a job list. *)
Definition corpus_vocabulary (user : User) (jobs : list Job) : list string :=
  Sklearn.vocabulary_of vectorizer (all_texts user jobs).

(** The entries of a scored list whose score is [s]. *)
Definition with_score (s : R) (l : list (Job * R)) : list (Job * R) :=
  filter (fun p => if Req_dec_T (snd p) s then true else false) l.

(** Two entries in non-increasing key order. *)
Definition descending {A} (key : A -> R) (a b : A) : Prop := (key b <= key a)%R.

(** The number of entries [xs[:k]] keeps of a list of [n]. *)
Definition slice_count (k : Z) (n : nat) : nat :=
  if (k <? 0)%Z then Z.to_nat (Z.of_nat n + k) else Nat.min (Z.to_nat k) n.

(** The invariant of the columns of a fitted term-document matrix: the term
    occurs in at least one and at most all of the [n_doc] documents. *)
Definition fitted (n_doc : nat) (c : Sklearn.column) : Prop :=
  (1 <= Sklearn.df c /\ Sklearn.df c <= n_doc /\
   List.length (Sklearn.counts c) = n_doc)%nat.

(** The element expression of the route's list comprehension: the job row
    validated into a [JobResponse], then paired with its score. *)
Definition to_recommendation (js : Job * R) : M Schemas.JobRecommendation :=
  job <- lift (JobResponse_model_validate (fst js)) ;;
  lift (JobRecommendation_validate job (snd js)).

(** The attributes [JobResponse.model_validate] checks on a job row. *)
Definition job_response_fields : list string :=
  ["title"; "company"; "description"; "location"; "salary_min"; "salary_max";
   "application_url"; "created_at"].

(** The limit a request body asks for. *)
Definition requested_limit (body : RequestBody) : Z :=
  match body_limit body with Some l => l | None => 10%Z end.

(** A string of whitespace only. *)
Fixpoint all_space (s : string) : bool :=
  match s with
  | EmptyString => true
  | String c s' => PyStr.isspace c && all_space s'
  end.

(** The two properties of the [users] table the schema declares and the
    database maintains: e-mail addresses are unique, and rows sit in the
    order of their strictly increasing keys. *)
Definition users_well_formed (db : Session) : Prop :=
  NoDup (map u_email (users db)) /\
  StronglySorted Z.lt (map u_id (users db)).

(** The conjunction of the filters a call of [get_jobs] asks for. *)
Definition job_matches (is_remote_q is_inclusive_q : option bool)
    (location_q : option string) (j : Job) : bool :=
  match is_remote_q with Some b => Bool.eqb (is_remote j) b | None => true end
  && match is_inclusive_q with
     | Some b => Bool.eqb (is_inclusive j) b
     | None => true
     end
  && match location_q with
     | Some (String c rest) => ilike (location j) ("%" ++ String c rest ++ "%")
     | Some EmptyString | None => true
     end.

(** A string made of [%] characters only. *)
Fixpoint all_percent (s : string) : bool :=
  match s with
  | EmptyString => true
  | String c s' => Ascii.eqb c "%" && all_percent s'
  end.

(** ** Sample rows *)

(** A user and a job with the same three terms: [data], [analyst] and the
    bigram [data analyst]. *)
Definition user_data_analyst : User :=
  mkUser 6 "da@example.org" (Some "Data Analyst") false None None
    (Some 0%Z) None.

Definition job_data_analyst : Job :=
  mkJob 7 (Some "Data") (Some "Acme") (Some "Analyst") None (Some "Pune")
    false false None None None None (Some 0%Z) None.


(** The term-document columns of the corpus of [user_data_analyst] and
    [job_data_analyst]: every term occurs once in each of the two texts. *)
Definition data_analyst_columns : list Sklearn.column :=
  [Sklearn.mkColumn "analyst" [1; 1]%nat;
   Sklearn.mkColumn "data" [1; 1]%nat;
   Sklearn.mkColumn "data analyst" [1; 1]%nat].

(** Rows that fit the schemas and hold single characters only. *)
Definition user_initials : User :=
  mkUser 4 "dee@example.org" (Some "D") false None None (Some 0%Z) None.

Definition job_letters : Job :=
  mkJob 4 (Some "B") (Some "C") (Some "E") None (Some "F") false false None
    None None None (Some 0%Z) None.

Definition user_ann : User :=
  mkUser 1 "ann@example.org" (Some "Ann Lee") true (Some "visual impairment")
    (Some "screen reader support") (Some 0%Z) None.

(** A user who gave a name only. *)
Definition user_name_only : User :=
  mkUser 2 "bo@example.org" (Some "Ann") false None None (Some 0%Z) None.

(** A row whose text attributes are all absent. *)
Definition user_blank : User :=
  mkUser 3 "cy@example.org" None false None None None None.

Definition job_analyst : Job :=
  mkJob 1 (Some "Data Analyst") (Some "Acme")
    (Some "Analyse data with a screen reader friendly toolchain")
    (Some "Python SQL") (Some "Remote") true true None None None None
    (Some 0%Z) None.

Definition job_driver : Job :=
  mkJob 2 (Some "Driver") (Some "Parcel Co") (Some "Deliver parcels in town")
    None (Some "Pune") false false None None None None (Some 0%Z) None.

Definition job_blank : Job :=
  mkJob 3 None None None None None false false None None None None None None.

(* ================================================================== *)
(** * Properties *)
(* ================================================================== *)

(** ** Runs *)

Lemma trace_bind {A B} (m : M A) (k : A -> M B) :
  trace (bind m k) =
  (trace m ++ match outcome m with
              | inr a => trace (k a)
              | inl _ => []
              end)%list.
Proof.
  destruct m as [t [e | a]]; simpl.
  - now rewrite app_nil_r.
  - now destruct (k a).
Qed.

Lemma outcome_bind {A B} (m : M A) (k : A -> M B) :
  outcome (bind m k) =
  match outcome m with
  | inr a => outcome (k a)
  | inl e => inl e
  end.
Proof.
  destruct m as [t [e | a]]; simpl; [reflexivity | now destruct (k a)].
Qed.

Lemma trace_lift {A} (r : exn + A) : trace (lift r) = [].
Proof. reflexivity. Qed.

Lemma outcome_lift {A} (r : exn + A) : outcome (lift r) = r.
Proof. reflexivity. Qed.

Lemma run_eq {A} (m : M A) : m = (trace m, outcome m).
Proof. now destruct m. Qed.

(** ** Python strings *)

Lemma lstrip_first s : is_space_at (first_char (PyStr.lstrip s)) = false.
Proof.
  induction s as [| c s IH]; simpl; [reflexivity |].
  destruct (PyStr.isspace c) eqn:E; [exact IH | simpl; exact E].
Qed.

Lemma rstrip_last s : is_space_at (last_char (PyStr.rstrip s)) = false.
Proof.
  induction s as [| c s IH]; simpl; [reflexivity |].
  destruct (PyStr.rstrip s) as [| d t] eqn:E.
  - destruct (PyStr.isspace c) eqn:Ec; simpl; [reflexivity | exact Ec].
  - exact IH.
Qed.

Lemma rstrip_first s :
  is_space_at (first_char s) = false ->
  is_space_at (first_char (PyStr.rstrip s)) = false.
Proof.
  destruct s as [| c s]; simpl; [reflexivity |].
  intros Hc. destruct (PyStr.rstrip s); [rewrite Hc |]; simpl; auto.
Qed.

Lemma lstrip_id s : is_space_at (first_char s) = false -> PyStr.lstrip s = s.
Proof.
  destruct s as [| c s]; simpl; [reflexivity |]. now intros ->.
Qed.

Lemma rstrip_id s : is_space_at (last_char s) = false -> PyStr.rstrip s = s.
Proof.
  induction s as [| c s IH]; simpl; [reflexivity |].
  destruct s as [| d t].
  - simpl. now intros ->.
  - intros H. rewrite (IH H). reflexivity.
Qed.

Lemma strip_trimmed s : trimmed (PyStr.strip s) = true.
Proof.
  unfold trimmed, PyStr.strip.
  rewrite rstrip_last, rstrip_first by apply lstrip_first. reflexivity.
Qed.

Lemma strip_fixed s : PyStr.strip s = s <-> trimmed s = true.
Proof.
  split.
  - intros <-. apply strip_trimmed.
  - unfold trimmed, PyStr.strip. intros H.
    apply andb_true_iff in H as [H1 H2].
    apply negb_true_iff in H1, H2.
    rewrite (lstrip_id _ H1). now apply rstrip_id.
Qed.

(** ** Sorting and slicing *)

Lemma Rltb_true x y : Rltb x y = true <-> (x < y)%R.
Proof. unfold Rltb. destruct (Rlt_dec x y); split; auto; discriminate. Qed.

Lemma Rltb_false x y : Rltb x y = false <-> (y <= x)%R.
Proof.
  unfold Rltb. destruct (Rlt_dec x y); split; auto; try discriminate; lra.
Qed.

Section SortPermutation.
Context {A K : Type}.
Variable key : A -> K.
Variable ltb : K -> K -> bool.

Lemma insert_desc_perm x l : Permutation (insert_desc key ltb x l) (x :: l).
Proof.
  induction l as [| y l IH]; simpl; [reflexivity |].
  destruct (ltb (key x) (key y)); [| reflexivity].
  rewrite perm_swap. now constructor.
Qed.

Lemma sort_desc_perm l : Permutation (sort_desc key ltb l) l.
Proof.
  induction l as [| x l IH]; simpl; [reflexivity |].
  rewrite insert_desc_perm. now constructor.
Qed.

Lemma sort_desc_length l : List.length (sort_desc key ltb l) = List.length l.
Proof. apply Permutation_length, sort_desc_perm. Qed.

Lemma sort_desc_nil l : sort_desc key ltb l = [] -> l = [].
Proof.
  intros H. apply length_zero_iff_nil. rewrite <- sort_desc_length, H.
  reflexivity.
Qed.

End SortPermutation.

Section SortFacts.
Context {A : Type}.
Variable key : A -> R.

Local Abbreviation sorted := (sort_desc key Rltb).
Local Abbreviation insert := (insert_desc key Rltb).

Lemma insert_desc_sorted x l :
  Sorted (descending key) l -> Sorted (descending key) (insert x l).
Proof.
  induction 1 as [| y l Hs IH Hd]; simpl.
  - repeat constructor.
  - destruct (Rltb (key x) (key y)) eqn:E.
    + constructor; [exact IH |].
      destruct l as [| z l]; simpl.
      * constructor. apply Rltb_true in E. unfold descending. lra.
      * destruct (Rltb (key x) (key z)) eqn:E'.
        -- constructor. now inversion Hd.
        -- constructor. apply Rltb_true in E. unfold descending. lra.
    + constructor; [now constructor |].
      constructor. now apply Rltb_false in E.
Qed.

Lemma sort_desc_sorted l : StronglySorted (descending key) (sorted l).
Proof.
  apply Sorted_StronglySorted.
  - intros a b c. unfold descending. lra.
  - induction l as [| x l IH]; [constructor |].
    apply insert_desc_sorted, IH.
Qed.

(** Stability: the entries with any given key keep their input order. *)
Lemma insert_desc_stable s x l :
  filter (fun p => if Req_dec_T (key p) s then true else false) (insert x l) =
  filter (fun p => if Req_dec_T (key p) s then true else false) (x :: l).
Proof.
  induction l as [| y l IH]; [reflexivity |].
  simpl insert_desc.
  destruct (Rltb (key x) (key y)) eqn:E; [| reflexivity].
  apply Rltb_true in E. simpl in *. rewrite IH.
  destruct (Req_dec_T (key x) s), (Req_dec_T (key y) s); try reflexivity.
  exfalso. lra.
Qed.

Lemma sort_desc_stable s l :
  filter (fun p => if Req_dec_T (key p) s then true else false) (sorted l) =
  filter (fun p => if Req_dec_T (key p) s then true else false) l.
Proof.
  induction l as [| x l IH]; [reflexivity |].
  simpl sort_desc. rewrite insert_desc_stable.
  simpl. now rewrite IH.
Qed.

End SortFacts.

Lemma slice_to_firstn {A} (k : Z) (xs : list A) :
  slice_to k xs = firstn (slice_count k (List.length xs)) xs.
Proof.
  unfold slice_to, slice_count. destruct (k <? 0)%Z; [reflexivity |].
  destruct (Nat.le_ge_cases (Z.to_nat k) (List.length xs)) as [H | H].
  - now rewrite Nat.min_l.
  - rewrite Nat.min_r by exact H. now rewrite !firstn_all2.
Qed.

Lemma slice_count_le k n : slice_count k n <= n.
Proof.
  unfold slice_count. destruct (k <? 0)%Z eqn:E; [| apply Nat.le_min_r].
  apply Z.ltb_lt in E. lia.
Qed.

Lemma slice_to_length {A} (k : Z) (xs : list A) :
  List.length (slice_to k xs) = slice_count k (List.length xs).
Proof.
  rewrite slice_to_firstn, length_firstn. apply Nat.min_l, slice_count_le.
Qed.

Lemma slice_to_split {A} (k : Z) (xs : list A) :
  (slice_to k xs ++ skipn (slice_count k (List.length xs)) xs)%list = xs.
Proof. rewrite slice_to_firstn. apply firstn_skipn. Qed.

Lemma In_firstn {A} (x : A) n l : In x (firstn n l) -> In x l.
Proof.
  intros H. rewrite <- (firstn_skipn n l). apply in_or_app. now left.
Qed.

Lemma StronglySorted_firstn {A} (R : A -> A -> Prop) n (l : list A) :
  StronglySorted R l -> StronglySorted R (firstn n l).
Proof.
  intros H. revert n. induction H as [| x l Hs IH Hx]; intros [| n]; simpl;
    try constructor.
  - apply IH.
  - rewrite Forall_forall in *. intros y Hy. apply Hx.
    eapply In_firstn; eauto.
Qed.

(** ** Dot products, normalisation and the cosine *)

Section RealFacts.
Local Open Scope R_scope.
Import Sklearn.

Lemma dot_cons a b x y : dot (a :: x) (b :: y) = a * b + dot x y.
Proof. reflexivity. Qed.

Lemma dot_nil_r x : dot x [] = 0.
Proof. now destruct x. Qed.

Lemma dot_self_nonneg x : 0 <= dot x x.
Proof.
  induction x as [| a x IH]; [unfold dot; simpl; lra |].
  rewrite dot_cons. nra.
Qed.

Lemma dot_am_gm x y : 2 * dot x y <= dot x x + dot y y.
Proof.
  revert y. induction x as [| a x IH]; intros y.
  - pose proof (dot_self_nonneg y). unfold dot at 1 2. simpl. lra.
  - destruct y as [| b y].
    + rewrite dot_nil_r. pose proof (dot_self_nonneg (a :: x)).
      change (dot [] []) with 0. lra.
    + rewrite !dot_cons. specialize (IH y).
      pose proof (Rle_0_sqr (a - b)) as Hs. unfold Rsqr in Hs. lra.
Qed.

Lemma dot_nonneg x y :
  Forall (fun a => 0 <= a) x -> Forall (fun a => 0 <= a) y -> 0 <= dot x y.
Proof.
  intros Hx. revert y. induction Hx as [| a x Ha Hx IH]; intros y Hy.
  - unfold dot. simpl. lra.
  - destruct Hy as [| b y Hb Hy]; [rewrite dot_nil_r; lra |].
    rewrite dot_cons. specialize (IH y Hy). nra.
Qed.

Lemma dot_self_zero x y : dot x x = 0 -> dot x y = 0.
Proof.
  revert y. induction x as [| a x IH]; intros y H; [reflexivity |].
  destruct y as [| b y]; [apply dot_nil_r |].
  rewrite dot_cons in *. pose proof (dot_self_nonneg x).
  assert (a = 0) by nra. assert (dot x x = 0) by nra.
  rewrite (IH y) by assumption. subst a. lra.
Qed.

Lemma dot_comm x y : dot x y = dot y x.
Proof.
  revert y. induction x as [| a x IH]; intros [| b y]; try reflexivity.
  rewrite !dot_cons, IH. lra.
Qed.

Lemma dot_scale c d x y :
  c <> 0 -> d <> 0 ->
  dot (map (fun a => a / c) x) (map (fun a => a / d) y) = dot x y / (c * d).
Proof.
  intros Hc Hd. revert y. induction x as [| a x IH]; intros y.
  - unfold dot. simpl. field. split; assumption.
  - destruct y as [| b y].
    + simpl map. rewrite !dot_nil_r. field. split; assumption.
    + simpl map. rewrite !dot_cons, IH. field. split; assumption.
Qed.

Lemma normalize_row_self x :
  dot (normalize_row x) (normalize_row x) = 0 \/
  dot (normalize_row x) (normalize_row x) = 1.
Proof.
  unfold normalize_row. destruct (Req_dec_T (dot x x) 0) as [E | E].
  - now left.
  - right. pose proof (dot_self_nonneg x) as H.
    assert (Hpos : 0 < dot x x) by lra.
    pose proof (sqrt_lt_R0 _ Hpos) as Hs.
    rewrite dot_scale by lra. rewrite sqrt_sqrt by lra. field. lra.
Qed.

Lemma normalize_row_nonneg x :
  Forall (fun a => 0 <= a) x -> Forall (fun a => 0 <= a) (normalize_row x).
Proof.
  intros H. unfold normalize_row.
  destruct (Req_dec_T (dot x x) 0) as [E | E]; [exact H |].
  pose proof (dot_self_nonneg x) as Hn.
  assert (Hs : 0 < sqrt (dot x x)) by (apply sqrt_lt_R0; lra).
  apply Forall_map. eapply Forall_impl; [| exact H].
  intros a Ha. simpl. apply Rle_mult_inv_pos; assumption.
Qed.

Lemma normalize_row_length x : List.length (normalize_row x) = List.length x.
Proof.
  unfold normalize_row. destruct (Req_dec_T (dot x x) 0); [reflexivity |].
  apply length_map.
Qed.

Lemma cosine_le_1 x y : cosine x y <= 1.
Proof.
  unfold cosine.
  pose proof (dot_am_gm (normalize_row x) (normalize_row y)).
  destruct (normalize_row_self x), (normalize_row_self y); lra.
Qed.

Lemma cosine_ge_0 x y :
  Forall (fun a => 0 <= a) x -> Forall (fun a => 0 <= a) y -> 0 <= cosine x y.
Proof.
  intros Hx Hy. apply dot_nonneg; now apply normalize_row_nonneg.
Qed.

Lemma cosine_zero x y : dot x x = 0 \/ dot y y = 0 -> cosine x y = 0.
Proof.
  unfold cosine, normalize_row. intros [H | H].
  - destruct (Req_dec_T (dot x x) 0); [| contradiction].
    now apply dot_self_zero.
  - destruct (Req_dec_T (dot y y) 0) as [_ | ]; [| contradiction].
    rewrite dot_comm. now apply dot_self_zero.
Qed.

End RealFacts.

(** ** The vectoriser *)

Section VectorizerFacts.
Import Sklearn.
Local Open Scope nat_scope.
Variable v : TfidfVectorizer.
Hypothesis min_df_1 : min_df v = 1.
Hypothesis max_features_pos :
  match max_features v with Some l => 0 < l | None => True end.

Lemma first_seen_In features t : In t (first_seen features) <-> In t features.
Proof.
  unfold first_seen. now rewrite <- in_rev, nodup_In, <- in_rev.
Qed.

Lemma vocabulary_of_In docs t :
  In t (vocabulary_of v docs) <-> exists d, In d docs /\ In t (analyze v d).
Proof.
  unfold vocabulary_of. rewrite first_seen_In, in_concat. split.
  - intros (f & Hf & Ht). apply in_map_iff in Hf as (d & <- & Hd). eauto.
  - intros (d & Hd & Ht). exists (analyze v d). split; [| exact Ht].
    now apply in_map.
Qed.

Lemma df_le c : df c <= List.length (counts c).
Proof. unfold df. apply filter_length_le. Qed.

Lemma df_count_column_pos docs t :
  In t (vocabulary_of v docs) ->
  1 <= df (count_column (map (analyze v) docs) t).
Proof.
  intros H. apply vocabulary_of_In in H as (d & Hd & Ht).
  unfold df, count_column. simpl.
  assert (Hin : In (count_occ string_dec (analyze v d) t)
                  (filter (fun k => 0 <? k)
                     (map (fun features => count_occ string_dec features t)
                        (map (analyze v) docs)))).
  { apply filter_In. split.
    - apply in_map_iff. exists (analyze v d). split; [reflexivity |].
      now apply in_map.
    - apply Nat.ltb_lt. now apply count_occ_In. }
  destruct (filter _ _); [contradiction | simpl; lia].
Qed.

Lemma df_count_column_le docs t :
  df (count_column (map (analyze v) docs) t) <= List.length docs.
Proof.
  etransitivity; [apply df_le |]. unfold count_column. simpl.
  now rewrite !length_map.
Qed.

Lemma counts_count_column docs t :
  List.length (counts (count_column (map (analyze v) docs) t)) = List.length docs.
Proof. unfold count_column. simpl. now rewrite !length_map. Qed.

(** What [_limit_features] keeps is taken from its input, and when every
    column is within the document-frequency bounds something is kept. *)
Lemma limit_features_incl high low limit cols kept :
  limit_features high low limit cols = inr kept -> incl kept cols.
Proof.
  unfold limit_features.
  set (masked := filter _ cols).
  assert (Hm : incl masked cols) by (intros c Hc; now apply filter_In in Hc).
  intros H.
  assert (Hk : forall k : list column, match k with
                         | [] => inl (ValueError
            "After pruning, no terms remain. Try a lower min_df or a higher max_df.")
                         | _ :: _ => inr k
                         end = inr kept -> k = kept).
  { intros [| c k] E; [discriminate | now injection E]. }
  apply Hk in H. subst kept. destruct limit as [l |]; [| exact Hm].
  destruct (l <? List.length masked); [| exact Hm].
  intros c Hc. apply Hm. apply in_map_iff in Hc as ([i c'] & <- & Hc).
  apply filter_In in Hc as [Hc _]. unfold indexed in Hc.
  now apply in_combine_r in Hc.
Qed.

Lemma limit_features_some high low limit cols :
  cols <> [] ->
  Forall (fun c => df c <= high /\ low <= df c) cols ->
  match limit with Some l => 0 < l | None => True end ->
  exists kept, limit_features high low limit cols = inr kept /\ kept <> [].
Proof.
  intros Hne Hall Hl. unfold limit_features.
  assert (Hm : filter (fun c => (df c <=? high) && (low <=? df c)) cols = cols).
  { apply forallb_filter_id. apply forallb_forall. rewrite Forall_forall in Hall.
    intros c Hc. destruct (Hall c Hc) as [H1 H2].
    apply andb_true_iff. split; now apply Nat.leb_le. }
  rewrite Hm.
  assert (Hk : forall k : list column, k <> [] ->
            exists kept, match k with
                         | [] => inl (ValueError
            "After pruning, no terms remain. Try a lower min_df or a higher max_df.")
                         | _ :: _ => inr k
                         end = inr kept /\ kept <> []).
  { intros [| c k] E; [contradiction | eauto]. }
  apply Hk. destruct limit as [l |]; [| exact Hne].
  destruct (l <? List.length cols); [| exact Hne].
  set (order := sort_desc (fun ic => tf (snd ic)) Nat.ltb (indexed cols)).
  assert (Ho : order <> []).
  { intros E. apply sort_desc_nil in E. unfold indexed in E.
    destruct cols; [contradiction | discriminate]. }
  destruct order as [| [i c] order'] eqn:Eo; [contradiction |].
  destruct l as [| l]; [lia |]. simpl firstn. simpl map.
  assert (Hin : In (i, c) (indexed cols)).
  { eapply Permutation_in; [apply (sort_desc_perm (fun ic => tf (snd ic)) Nat.ltb) |].
    fold order. rewrite Eo. now left. }
  intros E. apply map_eq_nil in E.
  match type of E with
  | ?f = [] =>
      assert (Hf : In (i, c) f)
        by (apply filter_In; split; [exact Hin | simpl; now rewrite Nat.eqb_refl])
  end.
  rewrite E in Hf. contradiction.
Qed.

Lemma sort_features_incl cols : incl (sort_features cols) cols.
Proof.
  intros c Hc. eapply Permutation_in; [| exact Hc]. apply sort_desc_perm.
Qed.

Lemma sort_features_nil cols : sort_features cols = [] -> cols = [].
Proof. apply sort_desc_nil. Qed.

Lemma vocabulary_of_nil : vocabulary_of v [] = [].
Proof. reflexivity. Qed.

Lemma count_fit_transform_empty docs :
  vocabulary_of v docs = [] ->
  count_fit_transform v docs = inl (ValueError empty_vocabulary).
Proof. unfold count_fit_transform. now intros ->. Qed.

Lemma count_fit_transform_some docs :
  vocabulary_of v docs <> [] ->
  exists cols,
    count_fit_transform v docs = inr cols /\ cols <> [] /\
    Forall (fitted (List.length docs)) cols.
Proof.
  intros Hv.
  assert (Hdocs : 1 <= List.length docs).
  { destruct docs; [now contradiction Hv | simpl; lia]. }
  set (cols0 := map (count_column (map (analyze v) docs)) (vocabulary_of v docs)).
  assert (H0 : Forall (fitted (List.length docs)) cols0).
  { apply Forall_forall. intros c Hc.
    apply in_map_iff in Hc as (t & <- & Ht). repeat split.
    - now apply df_count_column_pos.
    - apply df_count_column_le.
    - apply counts_count_column. }
  assert (Hne0 : cols0 <> []).
  { unfold cols0. intros E. now apply map_eq_nil in E. }
  set (cols1 := match max_features v with
                | Some _ => sort_features cols0
                | None => cols0
                end).
  assert (H1 : Forall (fitted (List.length docs)) cols1 /\ cols1 <> []).
  { unfold cols1. destruct (max_features v); [| now split]. split.
    - rewrite Forall_forall in *. intros c Hc. now apply H0, sort_features_incl.
    - intros E. now apply sort_features_nil in E. }
  destruct H1 as [H1 Hne1].
  destruct (limit_features_some (List.length docs) (min_df v) (max_features v) cols1)
    as (kept & Hk & Hnek); [exact Hne1 | | exact max_features_pos |].
  { rewrite min_df_1. eapply Forall_impl; [| exact H1].
    intros c (? & ? & ?). now split. }
  assert (Hkept : Forall (fitted (List.length docs)) kept).
  { rewrite Forall_forall in *. intros c Hc. apply H1.
    eapply limit_features_incl; eauto. }
  unfold count_fit_transform.
  destruct (vocabulary_of v docs) as [| t vocabulary] eqn:E; [contradiction |].
  rewrite min_df_1.
  replace (List.length docs <? 1) with false
    by (symmetry; apply Nat.ltb_ge; exact Hdocs).
  rewrite min_df_1 in Hk. unfold cols1, cols0 in Hk. rewrite Hk.
  eexists. split; [reflexivity |].
  destruct (max_features v); [now split |]. split.
  - intros E'. now apply sort_features_nil in E'.
  - rewrite Forall_forall in *. intros c Hc. now apply Hkept, sort_features_incl.
Qed.

Lemma idf_pos n c : df c <= n -> (1 <= idf n c)%R.
Proof.
  intros H. unfold idf.
  assert (H1 : (0 < 1 + INR (df c))%R) by (pose proof (pos_INR (df c)); lra).
  assert (H2 : (1 <= (1 + INR n) / (1 + INR (df c)))%R).
  { apply le_INR in H. apply (Rmult_le_reg_r (1 + INR (df c))); [exact H1 |].
    unfold Rdiv. rewrite Rmult_assoc, Rinv_l by lra. lra. }
  destruct (Req_dec_T ((1 + INR n) / (1 + INR (df c))) 1) as [-> | Hneq].
  - rewrite ln_1. lra.
  - assert (Hlt : (1 < (1 + INR n) / (1 + INR (df c)))%R) by lra.
    apply ln_increasing in Hlt; [| lra]. rewrite ln_1 in Hlt. lra.
Qed.

Lemma tfidf_row_nonneg n cols i :
  Forall (fitted n) cols -> Forall (fun a => 0 <= a)%R (tfidf_row n cols i).
Proof.
  intros H. unfold tfidf_row. apply Forall_map.
  eapply Forall_impl; [| exact H]. intros c (_ & Hc & _). simpl.
  pose proof (idf_pos n c Hc). pose proof (pos_INR (nth i (counts c) 0)). nra.
Qed.

Lemma fit_transform_empty docs :
  vocabulary_of v docs = [] ->
  fit_transform v docs = inl (ValueError empty_vocabulary).
Proof.
  intros H. unfold fit_transform. now rewrite count_fit_transform_empty.
Qed.

Lemma fit_transform_some docs :
  vocabulary_of v docs <> [] ->
  exists X,
    fit_transform v docs = inr X /\
    List.length (rows X) = List.length docs /\
    0 < n_cols X /\
    Forall (Forall (fun a => 0 <= a)%R) (rows X).
Proof.
  intros Hv. destruct (count_fit_transform_some docs Hv) as (cols & E & Hne & Hf).
  unfold fit_transform. rewrite E. eexists. split; [reflexivity |]. simpl.
  repeat split.
  - unfold range. now rewrite length_map, length_seq, Nat.sub_0_r.
  - destruct cols; [contradiction | simpl; lia].
  - apply Forall_map, Forall_forall. intros i _.
    now apply normalize_row_nonneg, tfidf_row_nonneg.
Qed.

End VectorizerFacts.

(** ** The ranker *)

Lemma vectorizer_min_df : Sklearn.min_df vectorizer = 1.
Proof. reflexivity. Qed.

Lemma vectorizer_max_features :
  match Sklearn.max_features vectorizer with Some l => 0 < l | None => True end.
Proof. simpl. lia. Qed.

Lemma compute_empty user limit :
  compute_tfidf_recommendations user [] limit =
  ([Call_compute_tfidf_recommendations 0 limit], inr []).
Proof. reflexivity. Qed.

Lemma cosine_similarity_rows n u rs :
  0 < n -> rs <> [] ->
  Sklearn.cosine_similarity
    (Sklearn.row_slice 0 1 (Sklearn.mkMatrix n (u :: rs)))
    (Sklearn.row_slice_from 1 (Sklearn.mkMatrix n (u :: rs))) =
  inr [map (cosine u) rs].
Proof.
  intros Hn Hrs. unfold Sklearn.cosine_similarity, Sklearn.row_slice,
    Sklearn.row_slice_from. simpl.
  destruct rs as [| r rs]; [contradiction |]. simpl.
  destruct n as [| n]; [lia |]. simpl. rewrite Nat.eqb_refl. simpl.
  unfold cosine. now rewrite map_map.
Qed.

Lemma compute_fails user jobs limit :
  jobs <> [] -> corpus_vocabulary user jobs = [] ->
  compute_tfidf_recommendations user jobs limit =
  ([Call_compute_tfidf_recommendations (List.length jobs) limit;
    Call_fit_transform (all_texts user jobs)],
   inl (ValueError Sklearn.empty_vocabulary)).
Proof.
  intros Hj Hv. destruct jobs as [| j jobs]; [contradiction |].
  apply (fit_transform_empty vectorizer) in Hv.
  unfold compute_tfidf_recommendations, call_fit_transform.
  change (combine_user_profile_text user :: map combine_job_text (j :: jobs))
    with (all_texts user (j :: jobs)).
  rewrite Hv. reflexivity.
Qed.

Lemma compute_some user jobs limit :
  jobs <> [] -> corpus_vocabulary user jobs <> [] ->
  compute_tfidf_recommendations user jobs limit =
  ([Call_compute_tfidf_recommendations (List.length jobs) limit;
    Call_fit_transform (all_texts user jobs);
    Call_cosine_similarity],
   inr (ranking user jobs limit)) /\
  List.length (similarity_scores user jobs) = List.length jobs /\
  Forall (fun s => 0 <= s <= 1)%R (similarity_scores user jobs).
Proof.
  intros Hj Hv. destruct jobs as [| j jobs]; [contradiction |].
  destruct (fit_transform_some vectorizer vectorizer_min_df
              vectorizer_max_features _ Hv) as ([n rws] & E & Hlen & Hn & Hpos).
  simpl in Hlen, Hn, Hpos. rewrite length_map in Hlen.
  destruct rws as [| u rs]; [discriminate |].
  assert (Hrs : rs <> []) by (destruct rs; [discriminate | discriminate]).
  assert (Hs : similarity_scores user (j :: jobs) = map (cosine u) rs).
  { unfold similarity_scores, tfidf_rows. now rewrite E. }
  split; [| split].
  - unfold ranking, job_scores. rewrite Hs.
    unfold compute_tfidf_recommendations, call_fit_transform,
      call_cosine_similarity.
    change (combine_user_profile_text user :: map combine_job_text (j :: jobs))
      with (all_texts user (j :: jobs)).
    rewrite E. cbv beta iota delta [bind emit lift].
    rewrite (cosine_similarity_rows n u rs Hn Hrs). reflexivity.
  - rewrite Hs, length_map. simpl in *. lia.
  - rewrite Hs. apply Forall_map, Forall_forall. intros y Hy.
    inversion Hpos as [| ? ? Hu Hr]; subst. rewrite Forall_forall in Hr.
    split; [apply cosine_ge_0; auto | apply cosine_le_1].
Qed.

Lemma ranking_nil user limit : ranking user [] limit = [].
Proof.
  unfold ranking, job_scores. simpl. rewrite slice_to_firstn. apply firstn_nil.
Qed.

Lemma job_scores_length user jobs :
  jobs = [] \/ corpus_vocabulary user jobs <> [] ->
  List.length (job_scores user jobs) = List.length jobs.
Proof.
  intros [-> | Hv]; [reflexivity |].
  destruct jobs as [| j jobs]; [reflexivity |].
  destruct (compute_some user (j :: jobs) 0%Z) as (_ & Hl & _);
    [discriminate | exact Hv |].
  unfold job_scores. rewrite length_combine, Hl. apply Nat.min_id.
Qed.

Lemma job_scores_fst user jobs :
  jobs = [] \/ corpus_vocabulary user jobs <> [] ->
  map fst (job_scores user jobs) = jobs.
Proof.
  intros [-> | Hv]; [reflexivity |].
  destruct jobs as [| j jobs]; [reflexivity |].
  destruct (compute_some user (j :: jobs) 0%Z) as (_ & Hl & _);
    [discriminate | exact Hv |].
  unfold job_scores. revert Hl.
  generalize (similarity_scores user (j :: jobs)). generalize (j :: jobs).
  induction l as [| a l IH]; intros [| s ss] H; try discriminate; [reflexivity |].
  simpl. f_equal. apply IH. now injection H.
Qed.

Lemma job_scores_bounds user jobs :
  Forall (fun p => 0 <= snd p <= 1)%R (job_scores user jobs).
Proof.
  apply Forall_forall. intros [j s] H. simpl.
  destruct jobs as [| j0 jobs]; [contradiction |].
  destruct (Sklearn.vocabulary_of vectorizer (all_texts user (j0 :: jobs)))
    as [| t voc] eqn:E.
  - unfold job_scores, similarity_scores, tfidf_rows in H.
    rewrite (fit_transform_empty vectorizer _ E) in H.
    rewrite combine_nil in H. contradiction.
  - destruct (compute_some user (j0 :: jobs) 0%Z) as (_ & _ & Hb);
      [discriminate | unfold corpus_vocabulary; rewrite E; discriminate |].
    rewrite Forall_forall in Hb. apply Hb.
    unfold job_scores in H. now apply in_combine_r in H.
Qed.

(** What a run of the ranker can be: it returns exactly when the job list
    is empty or the corpus has a term, and then it returns the ranking. *)
Lemma compute_returns user jobs limit :
  jobs = [] \/ corpus_vocabulary user jobs <> [] ->
  returns (compute_tfidf_recommendations user jobs limit)
          (ranking user jobs limit).
Proof.
  intros [-> | Hv].
  - rewrite ranking_nil. reflexivity.
  - destruct jobs as [| j jobs]; [rewrite ranking_nil; reflexivity |].
    destruct (compute_some user (j :: jobs) limit) as (E & _);
      [discriminate | exact Hv |].
    unfold returns. now rewrite E.
Qed.

Lemma compute_returns_inv user jobs limit r :
  returns (compute_tfidf_recommendations user jobs limit) r ->
  r = ranking user jobs limit /\
  (jobs = [] \/ corpus_vocabulary user jobs <> []).
Proof.
  intros H.
  assert (Hv : jobs = [] \/ corpus_vocabulary user jobs <> []).
  { destruct jobs as [| j jobs]; [now left | right].
    intros E. unfold returns in H.
    rewrite (compute_fails user (j :: jobs) limit) in H;
      [discriminate | discriminate | exact E]. }
  split; [| exact Hv].
  pose proof (compute_returns user jobs limit Hv) as H'.
  unfold returns in *. rewrite H in H'. now injection H'.
Qed.

Lemma ranking_length user jobs limit :
  jobs = [] \/ corpus_vocabulary user jobs <> [] ->
  List.length (ranking user jobs limit) = slice_count limit (List.length jobs).
Proof.
  intros Hv. unfold ranking.
  now rewrite slice_to_length, sort_desc_length, job_scores_length.
Qed.

Lemma ranking_sorted user jobs limit :
  StronglySorted (descending snd) (ranking user jobs limit).
Proof.
  unfold ranking. rewrite slice_to_firstn.
  apply StronglySorted_firstn, sort_desc_sorted.
Qed.

Lemma with_score_app s l l' :
  with_score s (l ++ l') = (with_score s l ++ with_score s l')%list.
Proof. apply filter_app. Qed.

Lemma ranking_stable user jobs limit s :
  exists rest,
    with_score s (job_scores user jobs) =
    (with_score s (ranking user jobs limit) ++ rest)%list.
Proof.
  unfold ranking.
  exists (with_score s
            (skipn (slice_count limit
                      (List.length (sort_desc snd Rltb (job_scores user jobs))))
                   (sort_desc snd Rltb (job_scores user jobs)))).
  rewrite <- with_score_app, slice_to_split.
  unfold with_score. now rewrite sort_desc_stable.
Qed.

Lemma ranking_selection user jobs limit :
  exists rest,
    Permutation (ranking user jobs limit ++ rest) (job_scores user jobs).
Proof.
  unfold ranking. eexists. rewrite slice_to_split. apply sort_desc_perm.
Qed.

Lemma ranking_bounds user jobs limit :
  Forall (fun p => 0 <= snd p <= 1)%R (ranking user jobs limit).
Proof.
  pose proof (job_scores_bounds user jobs) as H.
  rewrite Forall_forall in *. intros p Hp. apply H.
  unfold ranking in Hp. rewrite slice_to_firstn in Hp. apply In_firstn in Hp.
  eapply Permutation_in; [apply (sort_desc_perm snd Rltb) | exact Hp].
Qed.

Lemma slice_count_pos limit n :
  (0 < limit)%Z ->
  slice_count limit n = Z.to_nat (Z.min limit (Z.of_nat n)).
Proof.
  intros H. unfold slice_count.
  replace (limit <? 0)%Z with false by (symmetry; apply Z.ltb_ge; lia). lia.
Qed.

Lemma sample_vocabulary :
  corpus_vocabulary user_ann [job_analyst; job_driver] <> [].
Proof. vm_compute. discriminate. Qed.

(* ================================================================== *)
(** * The properties of the specification *)
(* ================================================================== *)

(** C1: for a non-empty job list and a positive limit, every result the
    ranker returns has length [min(limit, number of jobs)]; and it does return
    a result whenever the corpus of user and job texts has at least one
    term. *)
Theorem rank_length user jobs limit :
  jobs <> [] -> (0 < limit)%Z ->
  (forall r,
     returns (compute_tfidf_recommendations user jobs limit) r ->
     List.length r = Z.to_nat (Z.min limit (Z.of_nat (List.length jobs)))) /\
  (corpus_vocabulary user jobs <> [] ->
   exists r, returns (compute_tfidf_recommendations user jobs limit) r).
Proof.
  intros Hj Hl. split.
  - intros r H. apply compute_returns_inv in H as [-> Hv].
    rewrite ranking_length by exact Hv. now apply slice_count_pos.
  - intros Hv. eexists. apply compute_returns. now right.
Qed.

Lemma rank_length_witness :
  List.length (ranking user_ann [job_analyst; job_driver] 1) = 1.
Proof.
  refine (proj1 (rank_length user_ann [job_analyst; job_driver] 1 _ _) _ _).
  - discriminate.
  - lia.
  - apply compute_returns. right. exact sample_vocabulary.
Defined.

(** C2: the returned sequence is in descending score order, and among the
    entries of any one score the returned ones are the first of the input, in
    input order (a stable tie-break); the scored input lists the jobs in the
    order they were given. *)
Theorem rank_sorted_stable user jobs limit r :
  returns (compute_tfidf_recommendations user jobs limit) r ->
  StronglySorted (descending snd) r /\
  map fst (job_scores user jobs) = jobs /\
  forall s, exists rest,
    with_score s (job_scores user jobs) = (with_score s r ++ rest)%list.
Proof.
  intros H. apply compute_returns_inv in H as [-> Hv]. repeat split.
  - apply ranking_sorted.
  - now apply job_scores_fst.
  - intros s. apply ranking_stable.
Qed.

Lemma rank_sorted_stable_witness :
  StronglySorted (descending snd) (ranking user_ann [job_analyst; job_driver] 1).
Proof.
  refine (proj1 (rank_sorted_stable user_ann [job_analyst; job_driver] 1 _ _)).
  apply compute_returns. right. exact sample_vocabulary.
Defined.

Lemma idf_all_documents n c :
  Sklearn.df c = n -> Sklearn.idf n c = 1%R.
Proof.
  intros <-. unfold Sklearn.idf.
  assert (H : (0 < 1 + INR (Sklearn.df c))%R)
    by (pose proof (pos_INR (Sklearn.df c)); lra).
  replace ((1 + INR (Sklearn.df c)) / (1 + INR (Sklearn.df c)))%R with 1%R
    by (field; lra).
  rewrite ln_1. lra.
Qed.

(** C3: the scores are not confined to [0, 1].  For a user and a job with
    the same three terms the fitted columns hold each term once per text, so
    both weighted rows are [1; 1; 1]; in binary64 the normalised rows have
    squares that sum to the number after 1, so the score the ranker returns
    is 1.0000000000000002, which also fails the [le=1.0] check of
    [JobRecommendation.match_score]. *)
Theorem rank_score_exceeds_one :
  Sklearn.count_fit_transform vectorizer
    (all_texts user_data_analyst [job_data_analyst]) =
    inr data_analyst_columns /\
  Sklearn.tfidf_row 2 data_analyst_columns 0 = [1; 1; 1]%R /\
  Sklearn.tfidf_row 2 data_analyst_columns 1 = [1; 1; 1]%R /\
  Float64.score (Float64.unit_weights 3) (Float64.unit_weights 3) =
    Float64.next_after_one /\
  PrimFloat.leb (Float64.score (Float64.unit_weights 3) (Float64.unit_weights 3))
                PrimFloat.one = false /\
  Float64.match_score_ok
    (Float64.score (Float64.unit_weights 3) (Float64.unit_weights 3)) = false.
Proof.
  split; [vm_compute; reflexivity |].
  assert (Hrow : forall i, (i < 2)%nat ->
            Sklearn.tfidf_row 2 data_analyst_columns i = [1; 1; 1]%R).
  { intros i Hi. unfold Sklearn.tfidf_row, data_analyst_columns.
    simpl map. rewrite !idf_all_documents by reflexivity.
    destruct i as [| [| i]]; [| | lia]; simpl; repeat f_equal; lra. }
  split; [apply Hrow; lia |]. split; [apply Hrow; lia |].
  repeat split; vm_compute; reflexivity.
Qed.

(** C9: the returned pairs are a selection from the scored input without
    repetition: together with the pairs left out they are a rearrangement of
    the input, so every returned job is an input job, and no job is returned
    twice unless it was given twice. *)
Theorem rank_selection user jobs limit r :
  returns (compute_tfidf_recommendations user jobs limit) r ->
  (exists rest : list (Job * R),
     Permutation (map fst r ++ map fst rest)%list jobs) /\
  incl (map fst r) jobs /\
  (NoDup jobs -> NoDup (map fst r)).
Proof.
  intros H. apply compute_returns_inv in H as [-> Hv].
  destruct (ranking_selection user jobs limit) as [rest Hp].
  assert (Hq : Permutation
                 (map fst (ranking user jobs limit) ++ map fst rest)%list jobs).
  { rewrite <- map_app. rewrite <- (job_scores_fst user jobs Hv) at 2.
    now apply Permutation_map. }
  repeat split.
  - now exists rest.
  - intros j Hj. eapply Permutation_in; [exact Hq |]. apply in_or_app. now left.
  - intros Hn. apply Permutation_sym in Hq.
    eapply Permutation_NoDup in Hn; [| exact Hq].
    now apply NoDup_app_remove_r in Hn.
Qed.

Lemma rank_selection_witness :
  incl (map fst (ranking user_ann [job_analyst; job_driver] 1))
       [job_analyst; job_driver].
Proof.
  refine (proj1 (proj2 (rank_selection user_ann [job_analyst; job_driver] 1 _ _))).
  apply compute_returns. right. exact sample_vocabulary.
Defined.

(** C6: on an empty job list the ranker returns the empty list for every
    user and every limit, and the only call the run records is the ranker's
    own entry: the vectoriser is never fitted and no cosine is computed. *)
Theorem rank_empty_jobs user limit :
  returns (compute_tfidf_recommendations user [] limit) [] /\
  trace (compute_tfidf_recommendations user [] limit) =
    [Call_compute_tfidf_recommendations 0 limit].
Proof. split; reflexivity. Qed.

(** C7 (as the code has it): each composed text is the space-separated
    concatenation of its three fields in the fixed order, absent fields as
    empty strings, with leading and trailing whitespace removed; it is the
    plain concatenation exactly when that neither begins nor ends with
    whitespace. *)
Theorem compose_text_stripped (user : User) (job : Job) :
  let user_plain :=
    spec_compose (full_name user) (disability_type user)
                 (accessibility_needs user) in
  let job_plain := spec_compose (title job) (skills job) (description job) in
  combine_user_profile_text user = PyStr.strip user_plain /\
  combine_job_text job = PyStr.strip job_plain /\
  (combine_user_profile_text user = user_plain <-> trimmed user_plain = true) /\
  (combine_job_text job = job_plain <-> trimmed job_plain = true) /\
  trimmed (combine_user_profile_text user) = true /\
  trimmed (combine_job_text job) = true.
Proof.
  cbv zeta. split; [reflexivity |]. split; [reflexivity |].
  split; [exact (strip_fixed _) |]. split; [exact (strip_fixed _) |].
  split; apply strip_trimmed.
Qed.

(** C7 as the specification words it fails: for a user who gave a name only,
    the plain concatenation ends with two spaces, the composed text does
    not. *)
Lemma compose_text_not_plain :
  ~ (forall user,
       combine_user_profile_text user =
       spec_compose (full_name user) (disability_type user)
                    (accessibility_needs user)).
Proof. intros H. specialize (H user_name_only). vm_compute in H. discriminate. Qed.

(** ** The ranker on a corpus without terms *)

Lemma analyze_empty : Sklearn.analyze vectorizer "" = [].
Proof. vm_compute. reflexivity. Qed.

Lemma all_empty_vocabulary user jobs :
  combine_user_profile_text user = "" ->
  Forall (fun j => combine_job_text j = "") jobs ->
  corpus_vocabulary user jobs = [].
Proof.
  intros Hu Hj. unfold corpus_vocabulary, Sklearn.vocabulary_of, all_texts.
  assert (E : List.concat (map (Sklearn.analyze vectorizer)
                 (combine_user_profile_text user :: map combine_job_text jobs)) = []).
  { simpl map. rewrite Hu, analyze_empty. simpl.
    induction Hj as [| j jobs Hj _ IH]; [reflexivity |].
    simpl. now rewrite Hj, analyze_empty. }
  now rewrite E.
Qed.

(** C4: when the user's text and every job's text are empty and there is at
    least one job, the ranker does not return: fitting the vectoriser raises
    [ValueError] for the empty vocabulary, for every limit, and no cosine is
    computed. *)
Theorem rank_all_texts_empty_raises user jobs limit :
  jobs <> [] ->
  combine_user_profile_text user = "" ->
  Forall (fun j => combine_job_text j = "") jobs ->
  compute_tfidf_recommendations user jobs limit =
  ([Call_compute_tfidf_recommendations (List.length jobs) limit;
    Call_fit_transform (all_texts user jobs)],
   inl (ValueError Sklearn.empty_vocabulary)).
Proof.
  intros Hj Hu Ht. apply compute_fails; [exact Hj |].
  now apply all_empty_vocabulary.
Qed.

Lemma rank_all_texts_empty_raises_witness :
  raises (compute_tfidf_recommendations user_blank [job_blank] 1)
         (ValueError Sklearn.empty_vocabulary).
Proof.
  unfold raises.
  rewrite (rank_all_texts_empty_raises user_blank [job_blank] 1).
  - reflexivity.
  - discriminate.
  - reflexivity.
  - repeat constructor.
Defined.

(** C5 as the specification words it fails: with one job and limit 0 the
    ranker returns (the empty list) and raises nothing. *)
Lemma rank_limit_zero_returns :
  ~ (forall user jobs limit,
       jobs <> [] -> (limit <= 0)%Z ->
       exists e, raises (compute_tfidf_recommendations user jobs limit) e).
Proof.
  intros H. destruct (H user_ann [job_analyst] 0%Z) as [e He];
    [discriminate | lia |].
  assert (Hr : returns (compute_tfidf_recommendations user_ann [job_analyst] 0)
                       (ranking user_ann [job_analyst] 0)).
  { apply compute_returns. right. vm_compute. discriminate. }
  unfold raises, returns in *. rewrite He in Hr. discriminate.
Qed.

(** C5 (as the code has it): the ranker does not check [limit].  Whenever
    the job list is empty or the corpus has a term, it returns for every
    integer limit: at most [limit] entries for a limit that is not negative
    (none for 0), all but the last [-limit] for a negative one.  Whether a
    call raises never depends on the limit. *)
Theorem rank_no_limit_validation user jobs limit limit' :
  jobs = [] \/ corpus_vocabulary user jobs <> [] ->
  (exists r,
     returns (compute_tfidf_recommendations user jobs limit) r /\
     Z.of_nat (List.length r) =
       if (limit <? 0)%Z then Z.max 0 (Z.of_nat (List.length jobs) + limit)
       else Z.min limit (Z.of_nat (List.length jobs))) /\
  (exists r', returns (compute_tfidf_recommendations user jobs limit') r').
Proof.
  intros Hv. split.
  - exists (ranking user jobs limit). split; [now apply compute_returns |].
    rewrite ranking_length by exact Hv. unfold slice_count.
    destruct (limit <? 0)%Z eqn:E; [apply Z.ltb_lt in E | apply Z.ltb_ge in E];
      lia.
  - eexists. now apply compute_returns.
Qed.

Lemma rank_no_limit_validation_witness :
  exists r,
    returns (compute_tfidf_recommendations user_ann [job_analyst; job_driver] (-1)) r /\
    Z.of_nat (List.length r) = 1%Z.
Proof.
  refine (proj1 (rank_no_limit_validation user_ann [job_analyst; job_driver]
                   (-1) 0 _)).
  right. exact sample_vocabulary.
Defined.

(** ** The endpoint *)

Lemma compute_trace user jobs limit n l :
  In (Call_compute_tfidf_recommendations n l)
     (trace (compute_tfidf_recommendations user jobs limit)) ->
  n = List.length jobs /\ l = limit.
Proof.
  assert (H : exists rest,
             trace (compute_tfidf_recommendations user jobs limit) =
             Call_compute_tfidf_recommendations (List.length jobs) limit :: rest /\
             incl rest [Call_fit_transform (all_texts user jobs);
                        Call_cosine_similarity]).
  { destruct jobs as [| j jobs].
    - exists []. split; [reflexivity | intros x []].
    - destruct (corpus_vocabulary user (j :: jobs)) as [| t voc] eqn:E.
      + rewrite (compute_fails user (j :: jobs) limit) by (discriminate || exact E).
        eexists. split; [reflexivity |]. intros x [<- | []]. now left.
      + destruct (compute_some user (j :: jobs) limit) as (-> & _);
          [discriminate | rewrite E; discriminate |].
        eexists. split; [reflexivity |]. apply incl_refl. }
  destruct H as (rest & -> & Hr). intros [E | Hin].
  - now injection E as <- <-.
  - apply Hr in Hin. destruct Hin as [E | [E | []]]; discriminate.
Qed.

Lemma mapM_trace {A B} (f : A -> M B) l :
  (forall x, trace (f x) = []) -> trace (mapM f l) = [].
Proof.
  intros Hf. induction l as [| x l IH]; [reflexivity |].
  simpl mapM. rewrite trace_bind, Hf. simpl.
  destruct (outcome (f x)); [reflexivity |].
  rewrite trace_bind, IH. simpl. now destruct (outcome (mapM f l)).
Qed.

Lemma mapM_length {A B} (f : A -> M B) l r :
  returns (mapM f l) r -> List.length r = List.length l.
Proof.
  unfold returns. revert r. induction l as [| x l IH]; intros r.
  - simpl. now intros [= <-].
  - simpl mapM. rewrite outcome_bind. destruct (outcome (f x)); [discriminate |].
    rewrite outcome_bind. destruct (outcome (mapM f l)) as [| ys] eqn:E;
      [discriminate |].
    simpl. intros [= <-]. simpl. f_equal. now apply IH.
Qed.

Lemma recommend_jobs_trace request db n l :
  In (Call_compute_tfidf_recommendations n l) (trace (recommend_jobs request db)) ->
  l = Schemas.limit request.
Proof.
  unfold recommend_jobs.
  destruct (find _ (users db)) as [user |]; [| intros []].
  destruct (jobs db) as [| j js]; [intros [] |].
  rewrite trace_bind. intros H. apply in_app_or in H as [H | H].
  - now apply compute_trace in H.
  - destruct (outcome _) as [| scored]; [destruct H |].
    rewrite trace_bind, mapM_trace in H.
    + simpl in H. destruct (outcome _); destruct H.
    + intros x. rewrite trace_bind. simpl.
      now destruct (JobResponse_model_validate (fst x)).
Qed.



(** C10: a request body is accepted exactly when it carries a [user_id]
    above 0 and its [limit], 10 when the key is absent, lies between 1 and
    50; so every call of the ranker that a run of the endpoint records has a
    limit between 1 and 50. *)
Theorem request_schema_bounds body :
  (forall request,
     RecommendationRequest_validate body = inr request <->
     exists user_id,
       body_user_id body = Some user_id /\ (0 < user_id)%Z /\
       (1 <= Schemas.limit request <= 50)%Z /\
       request = Schemas.mkRecommendationRequest user_id
                   (match body_limit body with Some l => l | None => 10%Z end)) /\
  (forall db n l,
     In (Call_compute_tfidf_recommendations n l)
        (trace (post_ml_recommend body db)) ->
     (1 <= l <= 50)%Z).
Proof.
  assert (Hv : forall request,
     RecommendationRequest_validate body = inr request <->
     exists user_id,
       body_user_id body = Some user_id /\ (0 < user_id)%Z /\
       (1 <= Schemas.limit request <= 50)%Z /\
       request = Schemas.mkRecommendationRequest user_id
                   (match body_limit body with Some l => l | None => 10%Z end)).
  { intros request. unfold RecommendationRequest_validate.
    set (limit := match body_limit body with Some l => l | None => 10%Z end).
    destruct (body_user_id body) as [uid |].
    - unfold validated, failing. simpl.
      destruct (0 <? uid)%Z eqn:Eu, (1 <=? limit)%Z eqn:E1,
        (limit <=? 50)%Z eqn:E2; simpl; split;
        try discriminate;
        try (intros [= <-]; exists uid; simpl;
             apply Z.ltb_lt in Eu; apply Z.leb_le in E1, E2;
             repeat split; auto);
        intros (u & [= <-] & Hu & Hl & ->); simpl in Hl;
        try reflexivity;
        try (apply Z.ltb_ge in Eu; lia);
        try (apply Z.leb_gt in E1; lia);
        try (apply Z.leb_gt in E2; lia).
    - split; [discriminate | intros (u & Hu & _); discriminate]. }
  split; [exact Hv |].
  intros db n l. unfold post_ml_recommend. rewrite trace_bind. simpl.
  destruct (RecommendationRequest_validate body) as [| request] eqn:E;
    [intros [] |].
  intros H. apply recommend_jobs_trace in H. subst l.
  destruct (proj1 (Hv request) eq_refl) as (u & _ & _ & Hl & _). exact Hl.
Qed.

Lemma request_schema_bounds_witness :
  RecommendationRequest_validate (mkRequestBody (Some 3%Z) None) =
  inr (Schemas.mkRecommendationRequest 3 10).
Proof.
  refine (proj2 (proj1 (request_schema_bounds (mkRequestBody (Some 3%Z) None))
                   (Schemas.mkRecommendationRequest 3 10)) _).
  exists 3%Z. simpl. repeat split; lia.
Defined.

(* ================================================================== *)
(** * Further properties of the ranker *)
(* ================================================================== *)

(** X1: the ranker raises in one situation only, a non-empty job list whose
    corpus has no term, and what it raises then is the vectoriser's
    [ValueError] for an empty vocabulary. *)
Theorem rank_raises_iff user jobs limit e :
  raises (compute_tfidf_recommendations user jobs limit) e <->
  jobs <> [] /\ corpus_vocabulary user jobs = [] /\
  e = ValueError Sklearn.empty_vocabulary.
Proof.
  split.
  - intros H. destruct jobs as [| j jobs]; [discriminate |].
    destruct (corpus_vocabulary user (j :: jobs)) as [| t voc] eqn:E.
    + unfold raises in H.
      rewrite (compute_fails user (j :: jobs) limit) in H
        by (discriminate || exact E).
      injection H as <-. repeat split. discriminate.
    + destruct (compute_some user (j :: jobs) limit) as (E' & _);
        [discriminate | rewrite E; discriminate |].
      unfold raises in H. rewrite E' in H. discriminate.
  - intros (Hj & Hv & ->). unfold raises. now rewrite compute_fails.
Qed.

(** X2: on a non-empty job list the vectoriser is fitted exactly once, on the
    user's text followed by the job texts in input order; the cosine is
    computed, once, exactly in the runs that return. *)
Theorem rank_fits_once user jobs limit :
  jobs <> [] ->
  exists rest,
    trace (compute_tfidf_recommendations user jobs limit) =
      Call_compute_tfidf_recommendations (List.length jobs) limit
      :: Call_fit_transform
           (combine_user_profile_text user :: map combine_job_text jobs)
      :: rest /\
    ((rest = [Call_cosine_similarity] /\
      returns (compute_tfidf_recommendations user jobs limit)
              (ranking user jobs limit)) \/
     (rest = [] /\
      raises (compute_tfidf_recommendations user jobs limit)
             (ValueError Sklearn.empty_vocabulary))).
Proof.
  intros Hj. destruct (corpus_vocabulary user jobs) as [| t voc] eqn:E.
  - exists []. rewrite (compute_fails user jobs limit Hj E).
    split; [reflexivity | right]. split; reflexivity.
  - destruct (compute_some user jobs limit Hj) as (E' & _);
      [rewrite E; discriminate |].
    exists [Call_cosine_similarity]. rewrite E'.
    split; [reflexivity | left]. split; reflexivity.
Qed.

Lemma rank_fits_once_witness :
  exists rest,
    trace (compute_tfidf_recommendations user_blank [job_blank] 5) =
      Call_compute_tfidf_recommendations 1 5
      :: Call_fit_transform [EmptyString; EmptyString] :: rest.
Proof.
  destruct (rank_fits_once user_blank [job_blank] 5) as (rest & H & _).
  - discriminate.
  - exists rest. exact H.
Defined.

(** X3: asking for more never reorders: for limits that are not negative,
    the result for the smaller limit is a prefix of the result for the
    larger one. *)
Theorem rank_prefix_monotone user jobs limit limit' r r' :
  (0 <= limit <= limit')%Z ->
  returns (compute_tfidf_recommendations user jobs limit) r ->
  returns (compute_tfidf_recommendations user jobs limit') r' ->
  exists rest, r' = (r ++ rest)%list.
Proof.
  intros Hl H H'.
  apply compute_returns_inv in H as [-> _].
  apply compute_returns_inv in H' as [-> _].
  unfold ranking, slice_to.
  replace (limit <? 0)%Z with false by (symmetry; apply Z.ltb_ge; lia).
  replace (limit' <? 0)%Z with false by (symmetry; apply Z.ltb_ge; lia).
  set (sorted := sort_desc snd Rltb (job_scores user jobs)).
  exists (skipn (Z.to_nat limit) (firstn (Z.to_nat limit') sorted)).
  rewrite <- (firstn_skipn (Z.to_nat limit) (firstn (Z.to_nat limit') sorted))
    at 1.
  f_equal. rewrite firstn_firstn. f_equal. lia.
Qed.

Lemma rank_prefix_monotone_witness :
  exists rest,
    ranking user_ann [job_analyst; job_driver] 2 =
    (ranking user_ann [job_analyst; job_driver] 1 ++ rest)%list.
Proof.
  refine (rank_prefix_monotone user_ann [job_analyst; job_driver] 1 2 _ _ _ _ _).
  - lia.
  - apply compute_returns. right. exact sample_vocabulary.
  - apply compute_returns. right. exact sample_vocabulary.
Defined.

(** X4: with a limit of at least the number of jobs every job is returned,
    each exactly as often as it was given. *)
Theorem rank_returns_all user jobs limit r :
  (Z.of_nat (List.length jobs) <= limit)%Z ->
  returns (compute_tfidf_recommendations user jobs limit) r ->
  Permutation (map fst r) jobs /\ Permutation r (job_scores user jobs).
Proof.
  intros Hl H. apply compute_returns_inv in H as [-> Hv].
  assert (E : ranking user jobs limit = sort_desc snd Rltb (job_scores user jobs)).
  { unfold ranking, slice_to.
    replace (limit <? 0)%Z with false by (symmetry; apply Z.ltb_ge; lia).
    apply firstn_all2. rewrite sort_desc_length, job_scores_length by exact Hv.
    lia. }
  rewrite E.
  assert (P : Permutation (sort_desc snd Rltb (job_scores user jobs))
                          (job_scores user jobs)) by apply sort_desc_perm.
  split; [| exact P].
  rewrite <- (job_scores_fst user jobs Hv) at 2. now apply Permutation_map.
Qed.

Lemma rank_returns_all_witness :
  Permutation (map fst (ranking user_ann [job_analyst; job_driver] 10))
              [job_analyst; job_driver].
Proof.
  refine (proj1 (rank_returns_all user_ann [job_analyst; job_driver] 10 _ _ _)).
  - simpl. lia.
  - apply compute_returns. right. exact sample_vocabulary.
Defined.

(** X5: a negative limit drops entries from the low end of the full
    ranking: the result and [min(-limit, number of jobs)] dropped entries
    make up the ranking of all jobs. *)
Theorem rank_negative_limit user jobs limit r :
  (limit < 0)%Z ->
  returns (compute_tfidf_recommendations user jobs limit) r ->
  exists dropped,
    sort_desc snd Rltb (job_scores user jobs) = (r ++ dropped)%list /\
    Z.of_nat (List.length dropped) =
      Z.min (- limit) (Z.of_nat (List.length jobs)).
Proof.
  intros Hl H. apply compute_returns_inv in H as [-> Hv].
  set (sorted := sort_desc snd Rltb (job_scores user jobs)).
  assert (Hn : List.length sorted = List.length jobs).
  { unfold sorted. now rewrite sort_desc_length, job_scores_length. }
  exists (skipn (slice_count limit (List.length sorted)) sorted). split.
  - symmetry. apply slice_to_split.
  - rewrite length_skipn, Hn. unfold slice_count.
    replace (limit <? 0)%Z with true by (symmetry; apply Z.ltb_lt; lia). lia.
Qed.

Lemma rank_negative_limit_witness :
  exists dropped,
    sort_desc snd Rltb (job_scores user_ann [job_analyst; job_driver]) =
    (ranking user_ann [job_analyst; job_driver] (-1) ++ dropped)%list /\
    Z.of_nat (List.length dropped) = 1%Z.
Proof.
  refine (rank_negative_limit user_ann [job_analyst; job_driver] (-1) _ _ _).
  - lia.
  - apply compute_returns. right. exact sample_vocabulary.
Defined.

Lemma rank_raises_aux user jobs limit e :
  outcome (compute_tfidf_recommendations user jobs limit) = inl e ->
  e = ValueError Sklearn.empty_vocabulary.
Proof.
  intros H. destruct jobs as [| j jobs]; [discriminate |].
  destruct (corpus_vocabulary user (j :: jobs)) as [| t voc] eqn:E.
  - rewrite (compute_fails user (j :: jobs) limit) in H
      by (discriminate || exact E).
    now injection H as <-.
  - destruct (compute_some user (j :: jobs) limit) as (E' & _);
      [discriminate | rewrite E; discriminate |].
    rewrite E' in H. discriminate.
Qed.

(* ================================================================== *)
(** * Further properties of the endpoint *)
(* ================================================================== *)

Lemma mapM_returns {A B} (f : A -> M B) l r :
  returns (mapM f l) r -> Forall2 (fun x y => returns (f x) y) l r.
Proof.
  unfold returns. revert r. induction l as [| x l IH]; intros r.
  - simpl. intros [= <-]. constructor.
  - simpl mapM. rewrite outcome_bind.
    destruct (outcome (f x)) as [| y] eqn:Ex; [discriminate |].
    rewrite outcome_bind. destruct (outcome (mapM f l)) as [| ys] eqn:E;
      [discriminate |].
    simpl. intros [= <-]. constructor; [exact Ex | now apply IH].
Qed.

Lemma mapM_raises {A B} (f : A -> M B) l e :
  raises (mapM f l) e -> exists x, In x l /\ raises (f x) e.
Proof.
  unfold raises. induction l as [| x l IH]; [discriminate |].
  simpl mapM. rewrite outcome_bind.
  destruct (outcome (f x)) as [e' | y] eqn:Ex.
  - intros [= <-]. exists x. split; [now left | exact Ex].
  - rewrite outcome_bind. destruct (outcome (mapM f l)) as [e' | ys] eqn:E.
    + intros [= <-]. destruct (IH eq_refl) as (x' & Hin & Hx).
      exists x'. split; [now right | exact Hx].
    + discriminate.
Qed.

Lemma failing_incl checks : incl (failing checks) (map fst checks).
Proof.
  intros f H. unfold failing in H. apply in_map_iff in H as (c & <- & Hc).
  apply filter_In in Hc as [Hc _]. now apply in_map.
Qed.

Lemma validated_inr {A} checks (a x : A) : validated checks a = inr x -> x = a.
Proof.
  unfold validated. destruct (failing checks); [now intros [= <-] | discriminate].
Qed.

Lemma validated_failing {A} checks (a : A) e :
  validated checks a = inl e -> e = ValidationError (failing checks).
Proof.
  unfold validated. destruct (failing checks); [discriminate | now intros [= <-]].
Qed.

Lemma failing_two (a b : string) (x y : bool) :
  a <> b ->
  (In a (failing [(a, x); (b, y)]) <-> x = false) /\
  (In b (failing [(a, x); (b, y)]) <-> y = false).
Proof.
  intros Hab. unfold failing. destruct x, y; simpl; repeat split;
    try discriminate; try tauto; try (intros [E | E]; congruence || tauto);
    intros [E | [E | E]]; congruence || tauto.
Qed.

Lemma validated_inl {A} checks (a : A) e :
  validated checks a = inl e ->
  exists fields,
    e = ValidationError fields /\ fields <> [] /\ incl fields (map fst checks).
Proof.
  unfold validated. pose proof (failing_incl checks) as H.
  destruct (failing checks) as [| f fs]; [discriminate |].
  intros [= <-]. exists (f :: fs). repeat split; [discriminate | exact H].
Qed.

Lemma to_recommendation_returns js rec :
  returns (to_recommendation js) rec ->
  JobResponse_model_validate (fst js) = inr (Schemas.job rec) /\
  Schemas.match_score rec = snd js /\
  Schemas.id (Schemas.job rec) = j_id (fst js).
Proof.
  unfold returns, to_recommendation. rewrite outcome_bind, outcome_lift.
  destruct (JobResponse_model_validate (fst js)) as [| job] eqn:E;
    [discriminate |].
  rewrite outcome_lift. unfold JobRecommendation_validate.
  destruct (Rle_dec 0 (snd js)); [| discriminate].
  destruct (Rle_dec (snd js) 1); [| discriminate].
  intros [= <-]. simpl. repeat split.
  unfold JobResponse_model_validate in E. apply validated_inr in E.
  now subst job.
Qed.

Lemma to_recommendation_raises js e :
  (0 <= snd js <= 1)%R ->
  raises (to_recommendation js) e ->
  exists fields,
    e = ValidationError fields /\ fields <> [] /\
    incl fields job_response_fields.
Proof.
  intros Hs. unfold raises, to_recommendation.
  rewrite outcome_bind, outcome_lift.
  destruct (JobResponse_model_validate (fst js)) as [e' | job] eqn:E.
  - intros [= <-]. unfold JobResponse_model_validate in E.
    now apply validated_inl in E.
  - rewrite outcome_lift. unfold JobRecommendation_validate.
    destruct (Rle_dec 0 (snd js)); [| lra].
    destruct (Rle_dec (snd js) 1); [discriminate | lra].
Qed.

Lemma validate_inr body request :
  RecommendationRequest_validate body = inr request <->
  exists user_id,
    body_user_id body = Some user_id /\ (0 < user_id)%Z /\
    (1 <= requested_limit body <= 50)%Z /\
    request = Schemas.mkRecommendationRequest user_id (requested_limit body).
Proof.
  unfold RecommendationRequest_validate, requested_limit.
  set (limit := match body_limit body with Some l => l | None => 10%Z end).
  destruct (body_user_id body) as [uid |].
  - unfold validated, failing. simpl.
    destruct (Z.ltb_spec 0 uid), (Z.leb_spec 1 limit), (Z.leb_spec limit 50);
      simpl; split; try discriminate;
      try (intros [= <-]; exists uid; repeat split; auto);
      intros (u & [= <-] & Hu & Hl & ->); try reflexivity; lia.
  - split; [discriminate | intros (u & Hu & _); discriminate].
Qed.

(** What a returning run of the route went through. *)
Lemma recommend_jobs_returns_inv request db response :
  returns (recommend_jobs request db) response ->
  exists user recs,
    find (fun u => (u_id u =? Schemas.user_id request)%Z) (users db) = Some user /\
    (jobs db = [] \/ corpus_vocabulary user (jobs db) <> []) /\
    Forall2 (fun js rec => returns (to_recommendation js) rec)
            (ranking user (jobs db) (Schemas.limit request)) recs /\
    response = Schemas.mkRecommendationResponse (Schemas.user_id request) recs
                 (Z.of_nat (List.length recs)).
Proof.
  unfold recommend_jobs, returns.
  destruct (find _ (users db)) as [user |]; [| discriminate].
  intros H. exists user.
  destruct (jobs db) as [| j js] eqn:Ej.
  - injection H as <-. exists []. rewrite ranking_nil.
    repeat split; [now left | constructor].
  - rewrite outcome_bind in H.
    destruct (outcome (compute_tfidf_recommendations _ _ _)) as [| scored] eqn:Ec;
      [discriminate |].
    apply compute_returns_inv in Ec as [-> Hv].
    rewrite outcome_bind in H.
    destruct (outcome (mapM _ _)) as [| recs] eqn:Em; [discriminate |].
    injection H as <-. exists recs.
    apply (mapM_returns to_recommendation) in Em. now repeat split.
Qed.

Lemma post_returns_inv body db response :
  returns (post_ml_recommend body db) response ->
  exists request,
    RecommendationRequest_validate body = inr request /\
    returns (recommend_jobs request db) response.
Proof.
  unfold post_ml_recommend, returns. rewrite outcome_bind, outcome_lift.
  destruct (RecommendationRequest_validate body) as [| request];
    [discriminate |].
  intros H. now exists request.
Qed.

Lemma mapM_returns_some {A B} (f : A -> M B) l :
  Forall (fun x => exists y, returns (f x) y) l ->
  exists r, returns (mapM f l) r.
Proof.
  unfold returns. induction 1 as [| x l [y Hy] _ [r IH]].
  - now exists [].
  - exists (y :: r). simpl mapM. rewrite outcome_bind, Hy, outcome_bind, IH.
    reflexivity.
Qed.

Lemma to_recommendation_returns_some js :
  (0 <= snd js <= 1)%R ->
  (exists job, JobResponse_model_validate (fst js) = inr job) ->
  exists rec, returns (to_recommendation js) rec.
Proof.
  intros Hs [job Hj]. unfold returns, to_recommendation.
  rewrite outcome_bind, outcome_lift, Hj, outcome_lift.
  unfold JobRecommendation_validate.
  destruct (Rle_dec 0 (snd js)); [| lra].
  destruct (Rle_dec (snd js) 1); [| lra]. eauto.
Qed.

(** In the model, where scores are exact, the route returns whenever the
    user exists, the ranker returns and every job row fits [JobResponse]. *)
Lemma recommend_jobs_returns_some request db user :
  find (fun u => (u_id u =? Schemas.user_id request)%Z) (users db) = Some user ->
  jobs db = [] \/ corpus_vocabulary user (jobs db) <> [] ->
  Forall (fun j => exists job, JobResponse_model_validate j = inr job) (jobs db) ->
  exists response, returns (recommend_jobs request db) response.
Proof.
  intros Hf Hv Hjobs. unfold recommend_jobs, returns. rewrite Hf.
  destruct (jobs db) as [| j js] eqn:Ej; [eexists; reflexivity |].
  pose proof (compute_returns user (j :: js) (Schemas.limit request) Hv) as Hr.
  unfold returns in Hr.
  destruct (mapM_returns_some to_recommendation
              (ranking user (j :: js) (Schemas.limit request))) as [recs Hrecs].
  - pose proof (ranking_bounds user (j :: js) (Schemas.limit request)) as Hb.
    destruct (ranking_selection user (j :: js) (Schemas.limit request))
      as [rest Hp].
    rewrite Forall_forall in *. intros p Hp'.
    apply to_recommendation_returns_some; [now apply Hb |].
    apply Hjobs. rewrite <- (job_scores_fst user (j :: js) Hv).
    apply in_map. eapply Permutation_in; [exact Hp |].
    apply in_or_app. now left.
  - unfold returns, to_recommendation in Hrecs.
    exists (Schemas.mkRecommendationResponse (Schemas.user_id request) recs
              (Z.of_nat (List.length recs))).
    rewrite outcome_bind, Hr, outcome_bind, Hrecs. reflexivity.
Qed.

Lemma post_returns request body db response :
  RecommendationRequest_validate body = inr request ->
  returns (recommend_jobs request db) response ->
  returns (post_ml_recommend body db) response.
Proof.
  intros Hreq H. unfold returns, post_ml_recommend.
  now rewrite outcome_bind, outcome_lift, Hreq.
Qed.

Lemma sample_jobs_valid :
  Forall (fun j => exists job, JobResponse_model_validate j = inr job)
         [job_analyst; job_driver].
Proof. repeat constructor; eexists; vm_compute; reflexivity. Qed.

(** X6: a response carries the ranker's result unchanged: the requesting
    user's id, and the scores and the job ids of the ranking in the ranking's
    order. *)
Theorem response_follows_ranking request db response :
  returns (recommend_jobs request db) response ->
  exists user,
    find (fun u => (u_id u =? Schemas.user_id request)%Z) (users db) = Some user /\
    Schemas.response_user_id response = Schemas.user_id request /\
    map Schemas.match_score (Schemas.recommendations response) =
      map snd (ranking user (jobs db) (Schemas.limit request)) /\
    map (fun rec => Schemas.id (Schemas.job rec))
        (Schemas.recommendations response) =
      map (fun js => j_id (fst js))
          (ranking user (jobs db) (Schemas.limit request)).
Proof.
  intros H.
  apply recommend_jobs_returns_inv in H as (user & recs & Hf & _ & Hr & ->).
  exists user. split; [exact Hf |]. split; [reflexivity |]. simpl.
  induction Hr as [| x y l l' Hxy _ IH]; [split; reflexivity |].
  apply to_recommendation_returns in Hxy as (_ & Hs & Hi).
  destruct IH as [IH1 IH2]. simpl. now rewrite Hs, Hi, IH1, IH2.
Qed.

Lemma response_follows_ranking_witness :
  exists response,
    returns (recommend_jobs (Schemas.mkRecommendationRequest 1 10)
               (mkSession [user_ann] [job_analyst; job_driver])) response /\
    map Schemas.match_score (Schemas.recommendations response) =
      map snd (ranking user_ann [job_analyst; job_driver] 10) /\
    List.length (Schemas.recommendations response) = 2.
Proof.
  destruct (recommend_jobs_returns_some (Schemas.mkRecommendationRequest 1 10)
              (mkSession [user_ann] [job_analyst; job_driver]) user_ann)
    as [response H].
  - reflexivity.
  - right. exact sample_vocabulary.
  - exact sample_jobs_valid.
  - exists response. split; [exact H |].
    destruct (response_follows_ranking _ _ _ H) as (user & Hf & _ & Hs & _).
    injection Hf as <-. split; [exact Hs |].
    rewrite <- (length_map Schemas.match_score), Hs, length_map.
    rewrite ranking_length by (right; exact sample_vocabulary). reflexivity.
Defined.

(** X7: through the endpoint a response never holds more recommendations
    than the requested limit, than 50, or than there are jobs: it holds
    exactly [min(limit, number of jobs)]. *)
Theorem endpoint_count body db response :
  returns (post_ml_recommend body db) response ->
  Z.of_nat (List.length (Schemas.recommendations response)) =
    Z.min (requested_limit body) (Z.of_nat (List.length (jobs db))) /\
  List.length (Schemas.recommendations response) <= 50.
Proof.
  intros H. apply post_returns_inv in H as (request & Hreq & H).
  apply validate_inr in Hreq as (uid & _ & _ & Hl & ->).
  apply recommend_jobs_returns_inv in H as (user & recs & _ & Hv & Hr & ->).
  simpl in *. apply Forall2_length in Hr. rewrite <- Hr.
  rewrite ranking_length by exact Hv. unfold slice_count.
  replace (requested_limit body <? 0)%Z with false
    by (symmetry; apply Z.ltb_ge; lia).
  lia.
Qed.

Lemma endpoint_count_witness :
  exists response,
    returns (post_ml_recommend (mkRequestBody (Some 1%Z) (Some 5%Z))
               (mkSession [user_ann] [job_analyst; job_driver])) response /\
    Z.of_nat (List.length (Schemas.recommendations response)) = 2%Z.
Proof.
  destruct (recommend_jobs_returns_some (Schemas.mkRecommendationRequest 1 5)
              (mkSession [user_ann] [job_analyst; job_driver]) user_ann)
    as [response H].
  - reflexivity.
  - right. exact sample_vocabulary.
  - exact sample_jobs_valid.
  - exists response.
    assert (Hp : returns (post_ml_recommend (mkRequestBody (Some 1%Z) (Some 5%Z))
                            (mkSession [user_ann] [job_analyst; job_driver]))
                         response).
    { now apply (post_returns (Schemas.mkRecommendationRequest 1 5)). }
    split; [exact Hp |].
    exact (proj1 (endpoint_count _ _ _ Hp)).
Defined.





(** X9: when neither the user's composed text nor any job's composed text
    yields a term, a valid request of an existing user over a non-empty job
    table makes the endpoint fail: the vectoriser's [ValueError] leaves the
    route unhandled, whatever valid limit is requested. *)
Theorem endpoint_raises_without_terms body db request user :
  RecommendationRequest_validate body = inr request ->
  find (fun u => (u_id u =? Schemas.user_id request)%Z) (users db) = Some user ->
  jobs db <> [] ->
  corpus_vocabulary user (jobs db) = [] ->
  raises (post_ml_recommend body db) (ValueError Sklearn.empty_vocabulary).
Proof.
  intros Hreq Hf Hj Hv. unfold raises, post_ml_recommend.
  rewrite outcome_bind, outcome_lift, Hreq. unfold recommend_jobs. rewrite Hf.
  destruct (jobs db) as [| j js] eqn:Ej; [contradiction |].
  rewrite outcome_bind, (compute_fails user (j :: js)) by assumption.
  reflexivity.
Qed.

Lemma endpoint_raises_without_terms_witness :
  raises (post_ml_recommend (mkRequestBody (Some 4%Z) None)
            (mkSession [user_initials] [job_letters]))
         (ValueError Sklearn.empty_vocabulary).
Proof.
  refine (endpoint_raises_without_terms (mkRequestBody (Some 4%Z) None)
            (mkSession [user_initials] [job_letters])
            (Schemas.mkRecommendationRequest 4 10) user_initials _ _ _ _).
  - reflexivity.
  - reflexivity.
  - discriminate.
  - vm_compute. reflexivity.
Defined.

(** X10: a body that fails validation stops the endpoint before any lookup
    or ranking: the run records no call, and the error lists [user_id] exactly
    when the key is absent or its value is not above 0, and [limit] exactly
    when the limit in force is outside 1..50. *)
Theorem endpoint_rejects_invalid_body body db e :
  RecommendationRequest_validate body = inl e ->
  post_ml_recommend body db = ([], inl e) /\
  exists fields,
    e = ValidationError fields /\
    (In "user_id" fields <->
     ~ exists user_id, body_user_id body = Some user_id /\ (0 < user_id)%Z) /\
    (In "limit" fields <-> ~ (1 <= requested_limit body <= 50)%Z).
Proof.
  intros H. split; [unfold post_ml_recommend; now rewrite H |].
  assert (Hlimit : forall limit,
            (1 <=? limit)%Z && (limit <=? 50)%Z = false <->
            ~ (1 <= limit <= 50)%Z).
  { intros l. rewrite andb_false_iff, Z.leb_gt, Z.leb_gt. lia. }
  revert H. unfold RecommendationRequest_validate. fold (requested_limit body).
  destruct (body_user_id body) as [uid |].
  - intros H. apply validated_failing in H as ->. eexists.
    split; [reflexivity |].
    destruct (failing_two "user_id" "limit" (0 <? uid)%Z
                ((1 <=? requested_limit body)%Z && (requested_limit body <=? 50)%Z))
      as [Hu Hl]; [discriminate |].
    rewrite Hu, Hl, Hlimit, Z.ltb_ge. split; [| reflexivity]. split.
    + intros Hle (u & [= <-] & Hpos). lia.
    + intros Hn. destruct (Z.le_gt_cases uid 0) as [Hle | Hgt]; [exact Hle |].
      exfalso. apply Hn. exists uid. split; [reflexivity | lia].
  - intros [= <-]. eexists. split; [reflexivity |]. split.
    + split; [intros _ (u & [=] & _) | intros _; now left].
    + rewrite <- Hlimit. unfold failing. simpl.
      destruct ((1 <=? requested_limit body)%Z && (requested_limit body <=? 50)%Z);
        simpl.
      * split; [intros [E | []]; discriminate E | discriminate].
      * split; [reflexivity | intros _; right; now left].
Qed.

Lemma endpoint_rejects_invalid_body_witness :
  post_ml_recommend (mkRequestBody (Some 0%Z) (Some 51%Z))
    (mkSession [user_ann] [job_analyst]) =
  ([], inl (ValidationError ["user_id"; "limit"])).
Proof.
  refine (proj1 (endpoint_rejects_invalid_body
                   (mkRequestBody (Some 0%Z) (Some 51%Z))
                   (mkSession [user_ann] [job_analyst]) _ _)).
  reflexivity.
Defined.

(* ================================================================== *)
(** * Further properties of the composed texts and of the scores *)
(* ================================================================== *)

Lemma all_space_app a b : all_space (a ++ b) = all_space a && all_space b.
Proof.
  induction a as [| c a IH]; simpl; [reflexivity |].
  now rewrite IH, andb_assoc.
Qed.

Lemma lstrip_empty s : PyStr.lstrip s = "" <-> all_space s = true.
Proof.
  induction s as [| c s IH]; simpl; [tauto |].
  destruct (PyStr.isspace c); simpl; [exact IH |].
  split; discriminate.
Qed.

Lemma rstrip_empty s : PyStr.rstrip s = "" <-> all_space s = true.
Proof.
  induction s as [| c s IH]; simpl; [tauto |].
  destruct (PyStr.rstrip s) as [| d t].
  - destruct (PyStr.isspace c); simpl.
    + split; [intros _; now apply IH | reflexivity].
    + split; discriminate.
  - split; [discriminate |]. intros H. apply andb_true_iff in H as [_ H].
    apply IH in H. discriminate.
Qed.

Lemma all_space_lstrip s : all_space (PyStr.lstrip s) = all_space s.
Proof.
  induction s as [| c s IH]; simpl; [reflexivity |].
  destruct (PyStr.isspace c) eqn:E; simpl; [exact IH | now rewrite E].
Qed.

Lemma strip_empty s : PyStr.strip s = "" <-> all_space s = true.
Proof.
  unfold PyStr.strip. now rewrite rstrip_empty, all_space_lstrip.
Qed.

Lemma fstring3_all_space a b c :
  all_space (fstring3 a b c) = all_space a && all_space b && all_space c.
Proof.
  unfold fstring3. rewrite !all_space_app.
  change (all_space " ") with true. simpl. now rewrite andb_assoc.
Qed.

(** X11: a composed text is empty exactly when each of its three fields is
    absent, empty or whitespace only; and composing strips completely:
    stripping a composed text again changes nothing. *)
Theorem composed_text_empty_iff (user : User) (job : Job) :
  (combine_user_profile_text user = "" <->
   all_space (PyStr.or_empty (full_name user)) = true /\
   all_space (PyStr.or_empty (disability_type user)) = true /\
   all_space (PyStr.or_empty (accessibility_needs user)) = true) /\
  (combine_job_text job = "" <->
   all_space (PyStr.or_empty (title job)) = true /\
   all_space (PyStr.or_empty (skills job)) = true /\
   all_space (PyStr.or_empty (description job)) = true) /\
  PyStr.strip (combine_user_profile_text user) = combine_user_profile_text user /\
  PyStr.strip (combine_job_text job) = combine_job_text job.
Proof.
  unfold combine_user_profile_text, combine_job_text. cbv zeta.
  rewrite !strip_empty, !fstring3_all_space, !andb_true_iff.
  repeat split; try tauto; apply strip_fixed, strip_trimmed.
Qed.

Section MoreRealFacts.
Local Open Scope R_scope.
Import Sklearn.

Lemma dot_am_gm_neg x y : - (dot x x + dot y y) <= 2 * dot x y.
Proof.
  revert y. induction x as [| a x IH]; intros y.
  - pose proof (dot_self_nonneg y). change (dot [] y) with 0.
    change (dot [] []) with 0. lra.
  - destruct y as [| b y].
    + rewrite (dot_nil_r (a :: x)). pose proof (dot_self_nonneg (a :: x)).
      change (dot [] []) with 0. lra.
    + rewrite !dot_cons. specialize (IH y).
      pose proof (Rle_0_sqr (a + b)) as Hs. unfold Rsqr in Hs. lra.
Qed.

Lemma normalize_row_unit x :
  dot x x <> 0 -> dot (normalize_row x) (normalize_row x) = 1.
Proof.
  intros E. unfold normalize_row.
  destruct (Req_dec_T (dot x x) 0) as [E' | _]; [contradiction |].
  pose proof (dot_self_nonneg x) as H.
  assert (Hpos : 0 < dot x x) by lra.
  pose proof (sqrt_lt_R0 _ Hpos) as Hs.
  rewrite dot_scale by lra. rewrite sqrt_sqrt by lra. field. lra.
Qed.

End MoreRealFacts.







Lemma tfidf_row_length n cols i :
  List.length (Sklearn.tfidf_row n cols i) = List.length cols.
Proof. unfold Sklearn.tfidf_row. apply length_map. Qed.

(* ================================================================== *)
(** * The user routes *)
(* ================================================================== *)

Lemma fold_max_ge i rest x :
  In x (i :: rest) -> (x <= fold_right Z.max i rest)%Z.
Proof.
  induction rest as [| y rest IH]; simpl.
  - intros [<- | []]. lia.
  - intros [<- | [<- | H]].
    + specialize (IH (or_introl eq_refl)). lia.
    + lia.
    + specialize (IH (or_intror H)). lia.
Qed.

Lemma next_id_fresh ids x : In x ids -> (x < next_id ids)%Z.
Proof.
  destruct ids as [| i rest]; [intros [] |].
  intros H. apply fold_max_ge in H. unfold next_id. lia.
Qed.

Lemma find_app {A} (f : A -> bool) l l' :
  find f (l ++ l') =
  match find f l with
  | Some x => Some x
  | None => find f l'
  end.
Proof.
  induction l as [| x l IH]; simpl; [reflexivity |].
  destruct (f x); [reflexivity | exact IH].
Qed.

Lemma find_email_none email rows :
  find (fun u => String.eqb (u_email u) email) rows = None <->
  ~ In email (map u_email rows).
Proof.
  split.
  - intros H Hin. apply in_map_iff in Hin as (u & <- & Hu).
    apply (find_none _ _ H) in Hu. simpl in Hu.
    now rewrite String.eqb_refl in Hu.
  - intros H. destruct (find _ rows) as [u |] eqn:E; [| reflexivity].
    apply find_some in E as [Hin E]. apply String.eqb_eq in E.
    exfalso. apply H. rewrite <- E. now apply in_map.
Qed.

Lemma find_id_fresh rows (id : Z) :
  (forall x, In x (map u_id rows) -> (x < id)%Z) ->
  find (fun u => (u_id u =? id)%Z) rows = None.
Proof.
  intros H. destruct (find _ rows) as [u |] eqn:E; [| reflexivity].
  apply find_some in E as [Hin E]. apply Z.eqb_eq in E.
  specialize (H (u_id u) (in_map u_id _ _ Hin)). lia.
Qed.

(** X15: [create_user] refuses an e-mail address that a row already has,
    with a 400 and without touching the database; otherwise it adds exactly
    one row, after the existing ones, which holds the request's fields under
    a key larger than every key in use, and returns that row.  The [jobs]
    table is never changed. *)
Theorem create_user_outcome user now db :
  (In (UserSchemas.email user) (map u_email (users db)) ->
   create_user user now db =
   (db, inl (HTTPException 400
               ("User with email " ++ UserSchemas.email user
                ++ " already exists")))) /\
  (~ In (UserSchemas.email user) (map u_email (users db)) ->
   exists row,
     create_user user now db =
       (mkSession (users db ++ [row])%list (jobs db), inr row) /\
     u_email row = UserSchemas.email user /\
     full_name row = Some (UserSchemas.full_name user) /\
     has_disability row = UserSchemas.has_disability user /\
     disability_type row = UserSchemas.disability_type user /\
     accessibility_needs row = UserSchemas.accessibility_needs user /\
     (forall u, In u (users db) -> (u_id u < u_id row)%Z)) /\
  jobs (fst (create_user user now db)) = jobs db.
Proof.
  unfold create_user. repeat split.
  - intros H. destruct (find _ (users db)) eqn:E; [reflexivity |].
    apply find_email_none in E. contradiction.
  - intros H. apply find_email_none in H. rewrite H.
    eexists. split; [reflexivity |]. simpl. repeat split.
    intros u Hu. apply next_id_fresh. now apply in_map.
  - now destruct (find _ (users db)).
Qed.

Lemma create_user_outcome_witness :
  create_user
    (UserSchemas.mkUserCreate "ann@example.org" "Ann B" false None None) 5
    (mkSession [user_ann] [job_analyst]) =
  (mkSession [user_ann] [job_analyst],
   inl (HTTPException 400 "User with email ann@example.org already exists")).
Proof.
  refine (proj1 (create_user_outcome
                   (UserSchemas.mkUserCreate "ann@example.org" "Ann B" false
                      None None) 5
                   (mkSession [user_ann] [job_analyst])) _).
  simpl. now left.
Defined.

Lemma StronglySorted_snoc ids x :
  StronglySorted Z.lt ids -> (forall y, In y ids -> (y < x)%Z) ->
  StronglySorted Z.lt (ids ++ [x]).
Proof.
  induction 1 as [| i ids Hs IH Hi]; intros Hx; simpl.
  - repeat constructor.
  - constructor.
    + apply IH. intros y Hy. apply Hx. now right.
    + apply Forall_app. split; [exact Hi |].
      constructor; [| constructor]. apply Hx. now left.
Qed.

(** X16: [create_user] keeps the [users] table well formed: if e-mail
    addresses were unique and keys strictly increasing before the call, they
    are after it, whether the call adds a row or refuses. *)
Theorem create_user_preserves_well_formed user now db :
  users_well_formed db -> users_well_formed (fst (create_user user now db)).
Proof.
  intros [Hemail Hid]. unfold create_user.
  destruct (find _ (users db)) eqn:E; [now split |].
  apply find_email_none in E. unfold users_well_formed. simpl.
  rewrite !map_app. simpl. split.
  - apply NoDup_app; [exact Hemail | repeat constructor; intros [] |].
    intros e He [<- | []]. contradiction.
  - apply StronglySorted_snoc; [exact Hid |]. apply next_id_fresh.
Qed.

Lemma create_user_preserves_well_formed_witness :
  users_well_formed
    (fst (create_user
            (UserSchemas.mkUserCreate "new@example.org" "N" false None None) 5
            (mkSession [user_ann; user_name_only] []))).
Proof.
  apply create_user_preserves_well_formed. split; simpl.
  - repeat constructor; simpl; intuition discriminate.
  - repeat constructor.
Defined.

(** X17: what [create_user] returns can be read back: [get_user] on the new
    key gives the created row, every key that could be read before reads
    the same row after, and [recommend_jobs] for the new user does not
    answer 404. *)
Theorem create_user_then_get user now db row :
  snd (create_user user now db) = inr row ->
  let db' := fst (create_user user now db) in
  get_user (u_id row) db' = inr row /\
  (forall id u, get_user id db = inr u -> get_user id db' = inr u) /\
  (forall limit e,
     raises (recommend_jobs (Schemas.mkRecommendationRequest (u_id row) limit) db') e ->
     e <> HTTPException 404 "User not found").
Proof.
  unfold create_user.
  destruct (find _ (users db)) eqn:E; [discriminate |].
  cbn [fst snd]. intros [= <-]. cbv zeta.
  set (row := mkUser _ _ _ _ _ _ _ _).
  assert (Hfresh : find (fun u => (u_id u =? u_id row)%Z) (users db) = None).
  { apply find_id_fresh. intros x Hx. now apply next_id_fresh. }
  assert (Hfind : find (fun u => (u_id u =? u_id row)%Z) (users db ++ [row]) =
                  Some row).
  { rewrite find_app, Hfresh. simpl. now rewrite Z.eqb_refl. }
  repeat split.
  - unfold get_user. cbn [users]. now rewrite Hfind.
  - intros id u. unfold get_user. cbn [users]. rewrite find_app.
    destruct (find (fun u0 => (u_id u0 =? id)%Z) (users db));
      [trivial | discriminate].
  - intros limit e H. unfold raises, recommend_jobs in H.
    cbn [users Schemas.user_id] in H. rewrite Hfind in H.
    intros ->. cbn [jobs] in H.
    destruct (jobs db) as [| j js]; [discriminate |].
    rewrite outcome_bind in H.
    destruct (outcome (compute_tfidf_recommendations _ _ _)) as [e' |] eqn:Ec.
    + apply rank_raises_aux in Ec. subst e'. discriminate.
    + rewrite outcome_bind in H.
      destruct (outcome (mapM _ _)) as [e' |] eqn:Em; [| discriminate].
      injection H as ->.
      apply (mapM_raises to_recommendation) in Em as (js' & _ & Hr).
      unfold raises, to_recommendation in Hr.
      rewrite outcome_bind, outcome_lift in Hr.
      destruct (JobResponse_model_validate (fst js')) as [e' |] eqn:Ev.
      * unfold JobResponse_model_validate in Ev.
        apply validated_failing in Ev. subst e'. discriminate.
      * rewrite outcome_lift in Hr. unfold JobRecommendation_validate in Hr.
        destruct (Rle_dec 0 (snd js')); [| discriminate].
        destruct (Rle_dec (snd js') 1); discriminate.
Qed.

Lemma create_user_then_get_witness :
  get_user 3
    (fst (create_user
            (UserSchemas.mkUserCreate "new@example.org" "N" false None None) 5
            (mkSession [user_ann; user_name_only] []))) =
  inr (mkUser 3 "new@example.org" (Some "N") false None None (Some 5%Z) None).
Proof.
  refine (proj1 (create_user_then_get
                   (UserSchemas.mkUserCreate "new@example.org" "N" false None None)
                   5 (mkSession [user_ann; user_name_only] [])
                   (mkUser 3 "new@example.org" (Some "N") false None None
                      (Some 5%Z) None) _)).
  reflexivity.
Defined.




(** ** Pagination and the job routes *)

Lemma firstn_add {A} a b (l : list A) :
  firstn (a + b) l = (firstn a l ++ firstn b (skipn a l))%list.
Proof.
  revert l. induction a as [| a IH]; intros l; [reflexivity |].
  destruct l as [| x l]; simpl.
  - now rewrite firstn_nil.
  - now rewrite IH.
Qed.

Lemma skipn_add {A} a b (l : list A) : skipn a (skipn b l) = skipn (b + a) l.
Proof.
  revert l. induction b as [| b IH]; intros l; [reflexivity |].
  destruct l as [| x l]; simpl; [now rewrite skipn_nil | apply IH].
Qed.

Lemma paginate_pages {A} skip a b (table : list A) :
  (0 <= skip)%Z -> (0 <= a)%Z -> (0 <= b)%Z ->
  paginate skip (a + b) table =
  (paginate skip a table ++ paginate (skip + a) b table)%list.
Proof.
  intros Hs Ha Hb. unfold paginate.
  replace (a + b <? 0)%Z with false by (symmetry; apply Z.ltb_ge; lia).
  replace (a <? 0)%Z with false by (symmetry; apply Z.ltb_ge; lia).
  replace (b <? 0)%Z with false by (symmetry; apply Z.ltb_ge; lia).
  rewrite !Z2Nat.inj_add by lia. now rewrite firstn_add, skipn_add.
Qed.

Lemma paginate_incl {A} skip limit (table : list A) :
  incl (paginate skip limit table) table.
Proof.
  intros x H. unfold paginate in H.
  assert (Hs : In x (skipn (Z.to_nat skip) table)).
  { destruct (limit <? 0)%Z; [exact H | now apply In_firstn in H]. }
  rewrite <- (firstn_skipn (Z.to_nat skip) table). apply in_or_app. now right.
Qed.

Lemma paginate_length {A} skip limit (table : list A) :
  (0 <= limit)%Z ->
  List.length (paginate skip limit table) <= Z.to_nat limit.
Proof.
  intros H. unfold paginate.
  replace (limit <? 0)%Z with false by (symmetry; apply Z.ltb_ge; lia).
  rewrite length_firstn. apply Nat.le_min_l.
Qed.

(** X19: the pages of [get_users] tile the table: for offsets and limits
    that are not negative, a page of [a + b] rows is the page of [a] rows
    followed by the page of [b] rows that starts [a] rows later; a page never
    has more rows than its limit, and holds rows of the table only. *)
Theorem get_users_pages skip a b db :
  (0 <= skip)%Z -> (0 <= a)%Z -> (0 <= b)%Z ->
  get_users skip (a + b) db =
    (get_users skip a db ++ get_users (skip + a) b db)%list /\
  List.length (get_users skip a db) <= Z.to_nat a /\
  incl (get_users skip a db) (users db).
Proof.
  intros Hs Ha Hb. unfold get_users. repeat split.
  - now apply paginate_pages.
  - now apply paginate_length.
  - apply paginate_incl.
Qed.

Lemma get_users_pages_witness :
  get_users 0 (1 + 1) (mkSession [user_ann; user_name_only; user_blank] []) =
  (get_users 0 1 (mkSession [user_ann; user_name_only; user_blank] []) ++
   get_users (0 + 1) 1 (mkSession [user_ann; user_name_only; user_blank] []))%list.
Proof.
  refine (proj1 (get_users_pages 0 1 1
                   (mkSession [user_ann; user_name_only; user_blank] []) _ _ _));
    lia.
Defined.

Lemma filter_filter {A} (f g : A -> bool) l :
  filter g (filter f l) = filter (fun x => f x && g x) l.
Proof.
  induction l as [| x l IH]; simpl; [reflexivity |].
  destruct (f x); simpl; [| exact IH].
  destruct (g x); now rewrite IH.
Qed.

Lemma get_jobs_fused skip limit r i loc db :
  get_jobs skip limit r i loc db =
  paginate skip limit (filter (job_matches r i loc) (jobs db)).
Proof.
  unfold get_jobs. f_equal.
  assert (Ht : forall l : list Job, l = filter (fun _ => true) l).
  { induction l as [| x l IH]; simpl; [reflexivity | now rewrite <- IH]. }
  assert (E1 : filter_is_remote r (jobs db) =
               filter (fun j => match r with
                                | Some b => Bool.eqb (is_remote j) b
                                | None => true
                                end) (jobs db)).
  { destruct r; [reflexivity | apply Ht]. }
  rewrite E1.
  assert (E2 : forall q, filter_is_inclusive i q =
               filter (fun j => match i with
                                | Some b => Bool.eqb (is_inclusive j) b
                                | None => true
                                end) q).
  { intros q. destruct i; [reflexivity | apply Ht]. }
  rewrite E2.
  assert (E3 : forall q, filter_location loc q =
               filter (fun j => match loc with
                                | Some (String c rest) =>
                                    ilike (location j) ("%" ++ String c rest ++ "%")
                                | Some EmptyString | None => true
                                end) q).
  { intros q. destruct loc as [[| c rest] |]; [apply Ht | reflexivity | apply Ht]. }
  rewrite E3, !filter_filter. apply filter_ext. intros j.
  unfold job_matches. apply andb_assoc.
Qed.

(** X20: the three filters of [get_jobs] act as one: the result is a page of
    the jobs that meet every requested condition, in table order; every job
    returned is a row of the table and meets them all, and a filter that is
    not requested (or an empty location) excludes nothing. *)
Theorem get_jobs_filters skip limit r i loc db :
  get_jobs skip limit r i loc db =
    paginate skip limit (filter (job_matches r i loc) (jobs db)) /\
  Forall (fun j => In j (jobs db) /\ job_matches r i loc j = true)
         (get_jobs skip limit r i loc db) /\
  get_jobs skip limit None None (Some EmptyString) db =
    paginate skip limit (jobs db) /\
  get_jobs skip limit None None None db = paginate skip limit (jobs db).
Proof.
  repeat split; try reflexivity.
  - apply get_jobs_fused.
  - rewrite get_jobs_fused. apply Forall_forall. intros j Hj.
    apply paginate_incl in Hj. now apply filter_In in Hj.
Qed.



(** ** The location filter *)

Lemma append_empty_r s : s ++ "" = s.
Proof. induction s as [| c s IH]; simpl; [reflexivity | now rewrite IH]. Qed.

Lemma lower_app a b : PyStr.lower (a ++ b) = PyStr.lower a ++ PyStr.lower b.
Proof. induction a as [| c a IH]; simpl; [reflexivity | now rewrite IH]. Qed.

Lemma lower_app_inv t a b :
  PyStr.lower t = a ++ b ->
  exists t1 t2, t = t1 ++ t2 /\ PyStr.lower t1 = a /\ PyStr.lower t2 = b.
Proof.
  revert t. induction a as [| c a IH]; intros t H.
  - exists "", t. auto.
  - destruct t as [| d t]; [discriminate |]. simpl in H.
    injection H as Hc H. destruct (IH t H) as (t1 & t2 & -> & <- & <-).
    exists (String d t1), t2. simpl. now rewrite Hc.
Qed.

Lemma like_percent p t :
  like (String "%" p) t =
  like p t || match t with
              | EmptyString => false
              | String _ t' => like (String "%" p) t'
              end.
Proof. destruct t; reflexivity. Qed.

Lemma like_percent_iff p t :
  like (String "%" p) t = true <->
  exists pre suf, t = pre ++ suf /\ like p suf = true.
Proof.
  induction t as [| d t IH]; rewrite like_percent.
  - rewrite orb_false_r. split.
    + intros H. exists "", "". auto.
    + intros (pre & suf & E & H). destruct pre; [| discriminate].
      simpl in E. now subst suf.
  - rewrite orb_true_iff, IH. split.
    + intros [H | (pre & suf & -> & H)].
      * exists "", (String d t). auto.
      * exists (String d pre), suf. auto.
    + intros (pre & suf & E & H). destruct pre as [| c pre].
      * simpl in E. subst suf. now left.
      * injection E as -> ->. right. eauto.
Qed.

Lemma like_literal c p t :
  Ascii.eqb c "%" = false -> Ascii.eqb c "_" = false ->
  like (String c p) t =
  match t with
  | EmptyString => false
  | String d t' =>
      Ascii.eqb (PyStr.lower_char c) (PyStr.lower_char d) && like p t'
  end.
Proof. intros H1 H2. simpl. rewrite H1. destruct t; [reflexivity |]. now rewrite H2. Qed.

Lemma like_prefix l t :
  no_wildcard l = true ->
  (like (l ++ "%") t = true <->
   exists m rest, t = m ++ rest /\ PyStr.lower m = PyStr.lower l).
Proof.
  revert t. induction l as [| c l IH]; intros t Hl.
  - split.
    + intros _. exists "", t. auto.
    + intros _. apply like_percent_iff. exists t, "".
      now rewrite append_empty_r.
  - simpl in Hl. apply andb_true_iff in Hl as [Hc Hl].
    apply andb_true_iff in Hc as [H1 H2].
    apply negb_true_iff in H1, H2.
    simpl append. rewrite like_literal by assumption.
    destruct t as [| d t].
    + split; [discriminate |]. intros (m & rest & E & H).
      destruct m; discriminate.
    + rewrite andb_true_iff, Ascii.eqb_eq, (IH t Hl). split.
      * intros (Hcd & m & rest & -> & Hm). exists (String d m), rest.
        simpl. now rewrite Hm, Hcd.
      * intros (m & rest & E & Hm). destruct m as [| x m]; [discriminate |].
        simpl in E, Hm. injection E as -> ->. injection Hm as Hx Hm.
        split; [now symmetry | eauto].
Qed.

Lemma like_contains l t :
  no_wildcard l = true ->
  (like ("%" ++ l ++ "%") t = true <-> contains_nocase l t).
Proof.
  intros Hl. change ("%" ++ l ++ "%") with (String "%" (l ++ "%")).
  rewrite like_percent_iff. unfold contains_nocase. split.
  - intros (pre & suf & -> & H). apply (like_prefix l suf Hl) in H
      as (m & rest & -> & Hm).
    exists (PyStr.lower pre), (PyStr.lower rest).
    now rewrite !lower_app, Hm.
  - intros (before & after & H).
    apply lower_app_inv in H as (pre & suf & -> & _ & H).
    apply lower_app_inv in H as (m & rest & -> & Hm & _).
    exists pre, (m ++ rest). split; [reflexivity |].
    apply (like_prefix l _ Hl). eauto.
Qed.

(** X22: for a location text without [%] and [_], the location filter of
    [get_jobs] keeps exactly the jobs whose location contains the text,
    without regard to the case of ASCII letters; a job without a location is
    dropped. *)
Theorem location_filter_contains loc query j :
  loc <> "" -> no_wildcard loc = true ->
  (In j (filter_location (Some loc) query) <->
   In j query /\
   exists text, location j = Some text /\ contains_nocase loc text).
Proof.
  intros Hne Hw. destruct loc as [| c rest]; [contradiction |].
  unfold filter_location. rewrite filter_In. unfold ilike.
  split; intros [Hin H]; (split; [exact Hin |]).
  - destruct (location j) as [text |]; [| discriminate].
    exists text. split; [reflexivity |]. now apply like_contains.
  - destruct H as (text & -> & H). now apply like_contains.
Qed.

Lemma location_filter_contains_witness :
  In job_driver (filter_location (Some "pun") [job_analyst; job_driver]) <->
  In job_driver [job_analyst; job_driver] /\
  exists text, location job_driver = Some text /\ contains_nocase "pun" text.
Proof.
  refine (location_filter_contains "pun" [job_analyst; job_driver] job_driver _ _).
  - discriminate.
  - reflexivity.
Defined.

Lemma like_all_percent_empty p : all_percent p = true -> like p "" = true.
Proof.
  induction p as [| c p IH]; [reflexivity |]. simpl all_percent.
  intros H. apply andb_true_iff in H as [Hc H]. apply Ascii.eqb_eq in Hc.
  subst c. rewrite like_percent, (IH H). reflexivity.
Qed.

Lemma all_percent_app a b :
  all_percent (a ++ b) = all_percent a && all_percent b.
Proof.
  induction a as [| c a IH]; simpl; [reflexivity |].
  now rewrite IH, andb_assoc.
Qed.

(** X23: the location text goes into the pattern unescaped: a text made of
    [%] characters matches every location, so the filter then keeps every job
    that has a location at all. *)
Theorem location_filter_wildcard loc query :
  loc <> "" -> all_percent loc = true ->
  filter_location (Some loc) query =
  filter (fun j => is_some (location j)) query.
Proof.
  intros Hne Hp. destruct loc as [| c rest]; [contradiction |].
  unfold filter_location. apply filter_ext. intros j. unfold ilike.
  destruct (location j) as [text |]; [| reflexivity]. simpl is_some.
  change ("%" ++ String c rest ++ "%")
    with (String "%" (String c rest ++ "%")).
  apply like_percent_iff. exists text, "". split.
  - now rewrite append_empty_r.
  - apply like_all_percent_empty. rewrite all_percent_app, Hp. reflexivity.
Qed.

Lemma location_filter_wildcard_witness :
  filter_location (Some "%") [job_analyst; job_blank; job_driver] =
  filter (fun j => is_some (location j)) [job_analyst; job_blank; job_driver].
Proof.
  refine (location_filter_wildcard "%" [job_analyst; job_blank; job_driver] _ _).
  - discriminate.
  - reflexivity.
Defined.


